(** * A line editor's completion engine, display engine and tokenisers

    Shallow embedding of three Go files of the readline library:
    - [tokenise.go]: the word tokenisers used to find the completion prefix;
    - [internal/completion] (second half of [engine.go]): candidate
      insertion, acceptance, cancellation and suffix trimming;
    - [internal/display/engine.go]: the redraw protocol.

    Conventions.  A Go [int] is a [Z] (the lengths and positions handled here
    are slice lengths and sums of two of them, far below [2^63]).  A [rune] is
    a [Z] holding an [int32].  A Go [string] is its sequence of bytes, each a
    [Z] in [0, 256).  A run-time panic (index or slice out of range, nil
    dereference) is the result [None]. *)

From Stdlib Require Import ZArith List Lia Bool.
From stdpp Require Import base option list strings gmap.

Local Open Scope Z_scope.

(** ** Go values *)

Abbreviation rune := Z (only parsing).
Abbreviation byte := Z (only parsing).
Abbreviation gostring := (list Z) (only parsing).

(** [len(x)] of a slice or a string. *)
Definition len {A} (l : list A) : Z := Z.of_nat (length l).

(** [x[i]]: panics out of range. *)
Definition go_index {A} (l : list A) (i : Z) : option A :=
  if (0 <=? i) && (i <? len l) then l !! Z.to_nat i else None.

(** [x[i:]]: panics unless [0 <= i <= len(x)]. *)
Definition go_slice_from {A} (l : list A) (i : Z) : option (list A) :=
  if (0 <=? i) && (i <=? len l) then Some (drop (Z.to_nat i) l) else None.

(** [for i, r := range l { body }] over a slice, from index [i]. *)
Fixpoint range_loop {A St} (body : Z -> A -> St -> option St)
    (i : Z) (l : list A) (s : St) : option St :=
  match l with
  | [] => Some s
  | r :: t => s' ← body i r s; range_loop body (i + 1) t s'
  end.

(** ** UTF-8, as Go converts between [string] and [[]rune] *)

Module Utf8.

Definition RuneError : rune := 0xFFFD.
Definition MaxRune : rune := 0x10FFFF.

(** A Unicode scalar value: in range and not a surrogate. *)
Definition valid_rune (r : rune) : bool :=
  ((0 <=? r) && (r <? 0xD800)) || ((0xE000 <=? r) && (r <=? MaxRune)).

(** [string(r)]: the encoding of [r]; a rune that is no scalar value is
    encoded as U+FFFD. *)
Definition encode_rune (r : rune) : gostring :=
  if (0 <=? r) && (r <=? 0x7F) then [r]
  else if (0 <=? r) && (r <=? 0x7FF) then
    [0xC0 + r / 64; 0x80 + r mod 64]
  else if negb (valid_rune r) then [0xEF; 0xBF; 0xBD]
  else if r <=? 0xFFFF then
    [0xE0 + r / 4096; 0x80 + (r / 64) mod 64; 0x80 + r mod 64]
  else
    [0xF0 + r / 262144; 0x80 + (r / 4096) mod 64;
     0x80 + (r / 64) mod 64; 0x80 + r mod 64].

(** [string(rs)] for [rs []rune]. *)
Definition string_of_runes (rs : list rune) : gostring :=
  concat (map encode_rune rs).

Definition between (lo hi b : byte) : bool := (lo <=? b) && (b <=? hi).
Definition cont (b : byte) : bool := between 0x80 0xBF b.
Definition low6 (b : byte) : Z := b - 0x80.

(** Range accepted for the second byte after the first byte [b0] of a three
    or four byte sequence (no overlong forms, no surrogates, nothing above
    U+10FFFF). *)
Definition second_lo (b0 : byte) : byte :=
  if b0 =? 0xE0 then 0xA0 else if b0 =? 0xF0 then 0x90 else 0x80.
Definition second_hi (b0 : byte) : byte :=
  if b0 =? 0xED then 0x9F else if b0 =? 0xF4 then 0x8F else 0xBF.

(** The first rune of a non-empty string and its width in bytes; an invalid
    or truncated sequence decodes as U+FFFD of width 1. *)
Definition decode_rune (s : gostring) : rune * nat :=
  match s with
  | [] => (RuneError, 0%nat)
  | b0 :: t =>
    if between 0 0x7F b0 then (b0, 1%nat)
    else if between 0xC2 0xDF b0 then
      match t with
      | b1 :: _ =>
        if cont b1 then ((b0 - 0xC0) * 64 + low6 b1, 2%nat)
        else (RuneError, 1%nat)
      | _ => (RuneError, 1%nat)
      end
    else if between 0xE0 0xEF b0 then
      match t with
      | b1 :: b2 :: _ =>
        if between (second_lo b0) (second_hi b0) b1 && cont b2 then
          ((b0 - 0xE0) * 4096 + low6 b1 * 64 + low6 b2, 3%nat)
        else (RuneError, 1%nat)
      | _ => (RuneError, 1%nat)
      end
    else if between 0xF0 0xF4 b0 then
      match t with
      | b1 :: b2 :: b3 :: _ =>
        if between (second_lo b0) (second_hi b0) b1 && cont b2 && cont b3 then
          ((b0 - 0xF0) * 262144 + low6 b1 * 4096 + low6 b2 * 64 + low6 b3,
           4%nat)
        else (RuneError, 1%nat)
      | _ => (RuneError, 1%nat)
      end
    else (RuneError, 1%nat)
  end.

(** Decoding a whole string; [skip] counts the bytes of the current rune
    that are still to be passed over. *)
Fixpoint decode_from (skip : nat) (s : gostring) : list rune :=
  match s with
  | [] => []
  | _ :: t =>
    match skip with
    | S k => decode_from k t
    | O => let (r, w) := decode_rune s in r :: decode_from (w - 1) t
    end
  end.

(** [[]rune(s)], and the runes visited by [for _, r := range s]. *)
Definition runes_of_string (s : gostring) : list rune := decode_from 0 s.

End Utf8.

(** ** tokenise.go *)

Module Tokenise.
Import Utf8.

(** The variables of the tokenisers' loops: [split], [punc], [index],
    [pos]. *)
Record vars := Vars {
  split : list gostring;
  punc : bool;
  index : Z;
  pos : Z
}.

(** [split = append(split, "")] *)
Definition append_empty (sp : list gostring) : list gostring := sp ++ [[]].

(** [split[len(split)-1] += s] *)
Definition add_to_last (sp : list gostring) (s : gostring)
    : option (list gostring) :=
  let i := len sp - 1 in
  seg ← go_index sp i;
  Some (<[Z.to_nat i := seg ++ s]> sp).

Definition isPunctuation (r : rune) : bool :=
  ((r >=? 33) && (47 >=? r)) ||
  ((r >=? 58) && (64 >=? r)) ||
  ((r >=? 91) && (94 >=? r)) ||
  (r =? 96) ||
  ((r >=? 123) && (126 >=? r)).

Definition isBlank (r : rune) : bool := (r =? 32) || (r =? 9) || (r =? 10).

(** The [if i == linePos] block closing each iteration of both loops. *)
Definition mark (linePos i : Z) (v : vars) : option vars :=
  if i =? linePos then
    let index' := len (split v) - 1 in
    seg ← go_index (split v) index';
    Some (Vars (split v) (punc v) index' (len seg - 1))
  else Some v.

(** The adjustment after both loops, for a cursor at the end of the line. *)
Definition adjust (line : list rune) (linePos : Z) (v : vars) : option vars :=
  if linePos =? len line then
    let index' := len (split v) - 1 in
    seg ← go_index (split v) index';
    Some (Vars (split v) (punc v) index' (len seg))
  else Some v.

Definition tokeniseLine_body (line : list rune) (linePos : Z)
    (i : Z) (r : rune) (v : vars) : option vars :=
  v' ← (if isPunctuation r then
          opens ← (if 0 <? i then p ← go_index line (i - 1); Some (negb (p =? r))
                   else Some false);
          let sp := if opens : bool then append_empty (split v) else split v in
          sp' ← add_to_last sp (encode_rune r);
          Some (Vars sp' true (index v) (pos v))
        else if isBlank r then
          sp' ← add_to_last (split v) (encode_rune r);
          Some (Vars sp' true (index v) (pos v))
        else
          let sp := if punc v then append_empty (split v) else split v in
          sp' ← add_to_last sp (encode_rune r);
          Some (Vars sp' false (index v) (pos v)));
  mark linePos i v'.

Definition tokeniseLine (line : list rune) (linePos : Z)
    : option (list gostring * Z * Z) :=
  if len line =? 0 then Some ([], 0, 0)
  else
    v ← range_loop (tokeniseLine_body line linePos) 0 line (Vars [[]] false 0 0);
    v' ← adjust line linePos v;
    Some (split v', index v', pos v').

Definition tokeniseSplitSpaces_body (line : list rune) (linePos : Z)
    (i : Z) (r : rune) (v : vars) : option vars :=
  v' ← (if isBlank r then
          sp' ← add_to_last (split v) (encode_rune r);
          Some (Vars sp' (punc v) (index v) (pos v))
        else
          opens ← (if 0 <? i then p ← go_index line (i - 1); Some (isBlank p)
                   else Some false);
          let sp := if opens : bool then append_empty (split v) else split v in
          sp' ← add_to_last sp (encode_rune r);
          Some (Vars sp' (punc v) (index v) (pos v)));
  mark linePos i v'.

Definition tokeniseSplitSpaces (line : list rune) (linePos : Z)
    : option (list gostring * Z * Z) :=
  if len line =? 0 then Some ([], 0, 0)
  else
    v ← range_loop (tokeniseSplitSpaces_body line linePos) 0 line
          (Vars [[]] false 0 0);
    v' ← adjust line linePos v;
    Some (split v', index v', pos v').

End Tokenise.


(** ** The text buffer (package [core]) *)

(** The buffer is a [core.Line] (a slice of runes) and a [core.Cursor] on it
    (a position).  Their methods are not among the files embedded here. *)

Module Line.

Abbreviation t := (list Z) (only parsing).

Definition Len (l : t) : Z := len l.

(** An index brought back into [0, len(l)]. *)
Definition clamp (l : t) (x : Z) : Z := Z.max 0 (Z.min x (len l)).

(** Modelled from the spec: [core.Line.Insert], the buffer's insert-at
    operation.  The runes are inserted at [pos]; a position outside
    [0, len(l)] is handled by clamping. *)
Definition Insert (l : t) (pos : Z) (chars : list rune) : t :=
  let p := Z.to_nat (clamp l pos) in
  take p l ++ chars ++ drop p l.

(** Modelled from the spec: [core.Line.Cut], the buffer's cut-range
    operation.  The runes of [[bpos, epos)] are removed, both ends clamped
    to the line; an empty or reversed range removes nothing. *)
Definition Cut (l : t) (bpos epos : Z) : t :=
  let b := clamp l bpos in
  let e := clamp l epos in
  if b <? e then take (Z.to_nat b) l ++ drop (Z.to_nat e) l else l.

(** Modelled from the spec: [core.Line.CutRune], the cut of the single rune
    at [pos]. *)
Definition CutRune (l : t) (pos : Z) : t :=
  if (0 <=? pos) && (pos <? len l) then Cut l pos (pos + 1) else l.

(** Modelled from the spec: [core.Line.Set], the buffer's replace-all
    operation. *)
Definition Set_ (l : t) (chars : list rune) : t := chars.

End Line.

Module Cursor.

(** Modelled from the spec: [core.Cursor.Set] moves the cursor to [pos],
    within the invariant [0 <= cursor <= length] of the buffer. *)
Definition Set_ (l : Line.t) (pos : Z) : Z := Line.clamp l pos.

(** Modelled from the spec: [core.Cursor.Dec] moves the cursor one rune
    back, within the same invariant. *)
Definition Dec (pos : Z) : Z := if 0 <? pos then pos - 1 else pos.

(** Modelled from the spec: [core.Cursor.InsertAt] inserts the runes at the
    cursor, which advances by their number. *)
Definition InsertAt (l : Line.t) (pos : Z) (r : list rune) : Line.t * Z :=
  (Line.Insert l pos r, pos + len r).

End Cursor.

(** ** The completion engine (package [completion]) *)

Module Completion.
Import Utf8.

(** [inputrc.Space] *)
Definition Space : rune := 32.

(** [unicode.IsSpace] of the Go library: the Latin-1 spaces and the
    characters of the Unicode property White_Space. *)
Definition IsSpace (r : rune) : bool :=
  if (0 <=? r) && (r <=? 0xFF) then
    (r =? 9) || (r =? 10) || (r =? 11) || (r =? 12) || (r =? 13) ||
    (r =? 32) || (r =? 0x85) || (r =? 0xA0)
  else
    (r =? 0x1680) || ((0x2000 <=? r) && (r <=? 0x200A)) ||
    (r =? 0x2028) || (r =? 0x2029) || (r =? 0x202F) || (r =? 0x205F) ||
    (r =? 0x3000).

(** [strings.HasSuffix(s, suffix)] *)
Definition HasSuffix (s suffix : gostring) : bool :=
  bool_decide (drop (length s - length suffix) s = suffix).

(** Modelled from the spec: a [Candidate] is a value with a display text and
    a description; [Candidate{}] is [emptyCandidate]. *)
Record Candidate := mkCandidate {
  Value : gostring;
  Display : gostring;
  Description : gostring
}.

Definition emptyCandidate : Candidate := mkCandidate [] [] [].

(** The suffix matcher: a string of separator characters (["*"] is the
    wildcard) and the position it was recorded for.  The source builds it as
    [SuffixMatcher{}], reads [.string] and [.pos]. *)
Record SuffixMatcher := mkSuffixMatcher {
  sm_string : gostring;
  sm_pos : Z
}.

Definition emptyMatcher : SuffixMatcher := mkSuffixMatcher [] 0.

(** Modelled from the spec: [SuffixMatcher.Matches] holds of a typed key
    that is a member of the recorded separator set, and of every key when
    the set is the wildcard. *)
Definition Matches (sm : SuffixMatcher) (s : gostring) : bool :=
  bool_decide (sm_string sm = [42]) ||
  existsb (fun r => bool_decide (encode_rune r = s))
          (runes_of_string (sm_string sm)).

(** Modelled from the spec: a group is an ordered sequence of candidates, a
    selection index into it and the separator set of its candidates
    ([noSpace]). *)
Record group := mkGroup {
  values : list Candidate;
  selIndex : nat;
  noSpace : SuffixMatcher
}.

(** Modelled from the spec: [group.selected], the candidate addressed by the
    selection index. *)
Definition gselected (g : group) : Candidate :=
  default emptyCandidate (values g !! selIndex g).

(** The fields of [completion.Engine] that the functions below read or
    write.  [keys] is what [e.keys.Caller()] returns, the keys that called
    the running command; [compLine] and [compCursor] are pointers, [None]
    when nil; [current] designates the current group. *)
Record Engine := mkEngine {
  line : Line.t;
  cursor : Z;
  compLine : option Line.t;
  compCursor : option Z;
  selected : Candidate;
  prefix : gostring;
  suffix : gostring;
  inserted : list rune;
  sm : SuffixMatcher;
  keys : list rune;
  groups : list group;
  current : option nat;
  autoForce : bool
}.

Definition set_line (x : Line.t) (e : Engine) : Engine :=
  mkEngine x (cursor e) (compLine e) (compCursor e) (selected e) (prefix e)
    (suffix e) (inserted e) (sm e) (keys e) (groups e) (current e)
    (autoForce e).
Definition set_cursor (x : Z) (e : Engine) : Engine :=
  mkEngine (line e) x (compLine e) (compCursor e) (selected e) (prefix e)
    (suffix e) (inserted e) (sm e) (keys e) (groups e) (current e)
    (autoForce e).
Definition set_compLine (x : option Line.t) (e : Engine) : Engine :=
  mkEngine (line e) (cursor e) x (compCursor e) (selected e) (prefix e)
    (suffix e) (inserted e) (sm e) (keys e) (groups e) (current e)
    (autoForce e).
Definition set_compCursor (x : option Z) (e : Engine) : Engine :=
  mkEngine (line e) (cursor e) (compLine e) x (selected e) (prefix e)
    (suffix e) (inserted e) (sm e) (keys e) (groups e) (current e)
    (autoForce e).
Definition set_selected (x : Candidate) (e : Engine) : Engine :=
  mkEngine (line e) (cursor e) (compLine e) (compCursor e) x (prefix e)
    (suffix e) (inserted e) (sm e) (keys e) (groups e) (current e)
    (autoForce e).
Definition set_prefix (x : gostring) (e : Engine) : Engine :=
  mkEngine (line e) (cursor e) (compLine e) (compCursor e) (selected e) x
    (suffix e) (inserted e) (sm e) (keys e) (groups e) (current e)
    (autoForce e).
Definition set_suffix (x : gostring) (e : Engine) : Engine :=
  mkEngine (line e) (cursor e) (compLine e) (compCursor e) (selected e)
    (prefix e) x (inserted e) (sm e) (keys e) (groups e) (current e)
    (autoForce e).
Definition set_inserted (x : list rune) (e : Engine) : Engine :=
  mkEngine (line e) (cursor e) (compLine e) (compCursor e) (selected e)
    (prefix e) (suffix e) x (sm e) (keys e) (groups e) (current e)
    (autoForce e).
Definition set_sm (x : SuffixMatcher) (e : Engine) : Engine :=
  mkEngine (line e) (cursor e) (compLine e) (compCursor e) (selected e)
    (prefix e) (suffix e) (inserted e) x (keys e) (groups e) (current e)
    (autoForce e).
Definition set_keys (x : list rune) (e : Engine) : Engine :=
  mkEngine (line e) (cursor e) (compLine e) (compCursor e) (selected e)
    (prefix e) (suffix e) (inserted e) (sm e) x (groups e) (current e)
    (autoForce e).
Definition set_groups (x : list group) (y : option nat) (e : Engine)
    : Engine :=
  mkEngine (line e) (cursor e) (compLine e) (compCursor e) (selected e)
    (prefix e) (suffix e) (inserted e) (sm e) (keys e) x y (autoForce e).
Definition set_autoForce (x : bool) (e : Engine) : Engine :=
  mkEngine (line e) (cursor e) (compLine e) (compCursor e) (selected e)
    (prefix e) (suffix e) (inserted e) (sm e) (keys e) (groups e) (current e)
    x.

(** Modelled from the spec: [Engine.currentGroup], the group holding the
    selection, nil when there is none. *)
Definition currentGroup (e : Engine) : option group :=
  i ← current e; groups e !! i.

(** Modelled from the spec: [Engine.noCompletions], an empty generation
    result: no group holds a candidate. *)
Definition noCompletions (e : Engine) : bool :=
  forallb (fun g => len (values g) =? 0) (groups e).

(** Modelled from the spec: [Engine.hasUniqueCandidate] is true iff exactly
    one candidate exists across all groups. *)
Definition hasUniqueCandidate (e : Engine) : bool :=
  len (concat (map values (groups e))) =? 1.

Definition notMatcher (key : rune) (matchers : gostring) : bool :=
  forallb (fun r => negb (r =? key)) (runes_of_string matchers).

Definition prepareSuffix (e : Engine) : option (Engine * gostring) :=
  match currentGroup e with
  | None => Some (e, [])
  | Some cur =>
    let comp := Value (selected e) in
    let prefix := len (prefix e) in
    short ← (if 0 <? len comp then
               rest ← go_slice_from comp prefix; Some (len rest <=? 1)
             else Some false);
    if short : bool then Some (e, comp)
    else
      suffix ← go_index comp (len comp - 1);
      key ← go_index (keys e) 0;
      let e := set_sm (mkSuffixMatcher (sm_string (noSpace cur))
                         (cursor e + len comp - prefix - 1)) e in
      if bool_decide (sm_string (noSpace cur) = [42]) &&
         negb (suffix =? Space) && (key =? Space)
      then Some (e, comp)
      else if HasSuffix comp [47] && negb (key =? Space) &&
              notMatcher key (sm_string (noSpace cur))
      then Some (e, comp)
      else Some (e, comp)
  end.

Definition acceptCandidate (e : Engine) : option Engine :=
  match currentGroup e with
  | None => Some e
  | Some cur =>
    let e := set_selected (gselected cur) e in
    '(e, completion) ← prepareSuffix e;
    ins ← go_slice_from completion (len (prefix e));
    let e := set_inserted (runes_of_string ins) e in
    let e := set_line
               (Line.Cut (line e) (cursor e) (cursor e + len (suffix e))) e in
    let '(l, c) := Cursor.InsertAt (line e) (cursor e) (inserted e) in
    let e := set_cursor c (set_line l e) in
    let e := set_line
               (Line.Insert (line e) (cursor e) (runes_of_string (suffix e)))
               e in
    Some (set_suffix [] (set_prefix [] (set_inserted [] e)))
  end.

Definition insertCandidate (e : Engine) : option Engine :=
  match currentGroup e with
  | None => Some e
  | Some grp =>
    let e := set_selected (gselected grp) e in
    if len (Value (selected e)) <? len (prefix e) then Some e
    else
      '(e, completion) ← prepareSuffix e;
      ins ← go_slice_from completion (len (prefix e));
      let e := set_inserted (runes_of_string ins) e in
      let completed : Line.t :=
        runes_of_string (string_of_runes (line e)) in
      let compCursor := Cursor.Set_ completed (cursor e) in
      let completed :=
        Line.Cut completed compCursor (compCursor + len (suffix e)) in
      let '(completed, compCursor) :=
        Cursor.InsertAt completed compCursor (inserted e) in
      let completed :=
        Line.Insert completed compCursor (runes_of_string (suffix e)) in
      Some (set_compCursor (Some compCursor)
              (set_compLine (Some completed) e))
  end.

Definition cancelCompletedLine (e : Engine) : option Engine :=
  compLine' ← compLine e;
  let compLine' := Line.Set_ compLine' (line e) in
  _ ← compCursor e;
  let compCursor' := Cursor.Set_ compLine' (cursor e) in
  Some (set_selected emptyCandidate
          (set_compCursor (Some compCursor')
             (set_compLine (Some compLine') e))).

Definition TrimSuffix (e : Engine) : option Engine :=
  if (Line.Len (line e) =? 0) || (cursor e =? 0) ||
     (0 <? len (Value (selected e)))
  then Some e
  else if negb (sm_pos (sm e) =? cursor e - 1)
  then Some (set_sm emptyMatcher e)
  else
    suf ← go_index (line e) (cursor e - 1);
    key ← go_index (keys e) 0;
    if (suf =? 47) && negb (key =? Space) && notMatcher key (sm_string (sm e))
    then Some e
    else if Matches (sm e) (encode_rune key) || IsSpace key then
      let c := Cursor.Dec (cursor e) in
      Some (set_line (Line.CutRune (line e) c) (set_cursor c e))
    else Some e.

(** Modelled from the spec: [Engine.Cancel] restores the shadow line, if
    there is one, to mirror the real line and discards the selected
    candidate. *)
Definition Cancel (inserted cached : bool) (e : Engine) : option Engine :=
  match compLine e with
  | Some _ => cancelCompletedLine e
  | None => Some (set_selected emptyCandidate e)
  end.

(** Modelled from the spec: [Engine.ClearMenu] closes the completion menu;
    called with [true] it drops the generated groups. *)
Definition ClearMenu (completions : bool) (e : Engine) : Engine :=
  if completions then set_groups [] None e else e.

Section Helpers.

(** [Engine.ResetForce] is not in the source tree and the specification
    does not describe it: it is a parameter of [refreshLine], any function
    of the engine, which may panic. *)
Variable ResetForce : Engine -> option Engine.

Definition refreshLine (e : Engine) : option Engine :=
  if noCompletions e then Cancel true true e
  else
    match currentGroup e with
    | None => Some e
    | Some _ =>
      if hasUniqueCandidate e then
        e ← acceptCandidate e;
        ResetForce (ClearMenu true e)
      else insertCandidate e
    end.

End Helpers.

End Completion.


(** ** The display engine (package [display]) *)

Module Display.
Import Utf8.

(** What the engine sends to the terminal, one constructor per printing
    call of the source. *)
Inductive term_op :=
| HideCursor
| ShowCursor
| ClearScreenBelow
| Println
| MoveCursorBackwards (n : Z)
| MoveCursorForwards (n : Z)
| MoveCursorUp (n : Z)
| MoveCursorDown (n : Z)
| LineDisplay (text : list rune) (indent : Z)
| RightPrint (lineCol : Z) (force : bool)
| HintDisplay
| CompletionsDisplay (compLines : Z).

(** The operating parameters of [display.Engine] and the components it
    caches; [line] and [cursor] are pointers, [None] when nil. *)
Record Engine := mkEngine {
  highlighter : option (list rune -> gostring);
  startCols : Z;
  startRows : Z;
  lineCol : Z;
  lineRows : Z;
  cursorRow : Z;
  cursorCol : Z;
  compRows : Z;
  line : option Line.t;
  suggested : Line.t;
  cursor : option Z
}.

(** Modelled from the spec: the coordinate resolver behind
    [core.Cursor.Coordinates] and [core.Line.Coordinates].  With total
    offset [T = start_column + count], the column is [T mod width] and the
    row [T / width]; a width that is not positive leaves a single unbounded
    row. *)
Definition coordinates (start_column width count : Z) : Z * Z :=
  if width <=? 0 then (start_column + count, 0)
  else ((start_column + count) mod width, (start_column + count) / width).

Section Collaborators.

(** The components the engine points to (keys, selection, history sources,
    prompt, hint, completer, options) and the terminal form a state of type
    [World]; their methods are parameters. *)
Variable World : Type.
Variable completer_Line : World -> Line.t * Z.
Variable completer_IsInserting : World -> bool.
Variable completer_Autocomplete : World -> World.
Variable completer_Display : Z -> World -> World.
Variable completer_Coordinates : World -> Z.
Variable histories_Suggest : World -> Line.t -> Line.t.
Variable keys_GetCursorPos : World -> Z * Z.
Variable prompt_LastUsed : World -> Z.
Variable hint_Coordinates : World -> Z.
Variable opts_GetBool : World -> string -> bool.
Variable term_GetWidth : World -> Z.
Variable term_GetHeight : World -> Z.
Variable ui_Highlight : World -> list rune -> gostring.
Variable FgBlackBright Reset : gostring.

(** The engine, the other components and what was printed so far. *)
Record state := mkState {
  eng : Engine;
  world : World;
  out : list term_op
}.

Definition emit (o : term_op) (s : state) : state :=
  mkState (eng s) (world s) (out s ++ [o]).

Definition set_eng (e : Engine) (s : state) : state :=
  mkState e (world s) (out s).

Definition set_world (w : World) (s : state) : state :=
  mkState (eng s) w (out s).

Definition CursorToLineStart (s : state) : state :=
  let e := eng s in
  let s := emit (MoveCursorBackwards (cursorCol e)) s in
  let s := emit (MoveCursorUp (cursorRow e)) s in
  emit (MoveCursorForwards (startCols e - 1)) s.

Definition LineStartToCursorPos (s : state) : state :=
  let e := eng s in
  let s := emit (MoveCursorDown (cursorRow e)) s in
  let s := emit (MoveCursorBackwards (term_GetWidth (world s))) s in
  emit (MoveCursorForwards (cursorCol e)) s.

Definition CursorHintToLineStart (s : state) : state :=
  let e := eng s in
  let s := emit (MoveCursorUp 1) s in
  let s := emit (MoveCursorUp (lineRows e - cursorRow e)) s in
  CursorToLineStart s.

Definition computeCoordinates (s : state) : state :=
  let e := eng s in
  let w := world s in
  let '(line', cursor') := completer_Line w in
  let suggested' :=
    if completer_IsInserting w then line' else histories_Suggest w line' in
  let '(startCols', startRows') := keys_GetCursorPos w in
  let startCols' :=
    if startCols' =? -1 then prompt_LastUsed w else startCols' in
  let '(cursorCol', cursorRow') :=
    coordinates startCols' (term_GetWidth w) cursor' in
  let '(lineCol', lineRows') :=
    if opts_GetBool w "history-autosuggest"
    then coordinates startCols' (term_GetWidth w) (len suggested')
    else coordinates startCols' (term_GetWidth w) (len line') in
  set_eng (mkEngine (highlighter e) startCols' startRows' lineCol' lineRows'
             cursorRow' cursorCol' (compRows e) (Some line') suggested'
             (Some cursor')) s.

Definition displayLine (s : state) : option state :=
  let e := eng s in
  l ← line e;
  let text :=
    match highlighter e with
    | Some h => h l
    | None => string_of_runes l
    end in
  let text := ui_Highlight (world s) (runes_of_string text) in
  text ← (if (len l <? len (suggested e)) &&
             opts_GetBool (world s) "history-autosuggest"
          then
            rest ← go_slice_from (suggested e) (Line.Len l);
            Some (text ++ FgBlackBright ++ string_of_runes rest ++ Reset)
          else Some text);
  let suggested' := Line.Set_ (suggested e) (runes_of_string text) in
  let s := set_eng (mkEngine (highlighter e) (startCols e) (startRows e)
                      (lineCol e) (lineRows e) (cursorRow e) (cursorCol e)
                      (compRows e) (line e) suggested' (cursor e)) s in
  let s := emit (LineDisplay suggested' (startCols e)) s in
  if (lineCol e =? 0) && (cursorCol e =? 0) && (1 <? cursorRow e)
  then Some (emit Println s)
  else Some s.

Definition displayHelpers (s : state) : state :=
  let s := emit Println s in
  let s := set_world (completer_Autocomplete (world s)) s in
  let e := eng s in
  let termHeight := term_GetHeight (world s) in
  let compLines :=
    termHeight - startRows e - lineRows e - hint_Coordinates (world s) - 1 in
  let compLines :=
    if compLines <? termHeight ÷ 3 then termHeight ÷ 2 - 1 else compLines in
  let s := emit HintDisplay s in
  let s := emit (CompletionsDisplay compLines) s in
  let s := set_world (completer_Display compLines (world s)) s in
  let compRows' := completer_Coordinates (world s) in
  let s := set_eng (mkEngine (highlighter e) (startCols e) (startRows e)
                      (lineCol e) (lineRows e) (cursorRow e) (cursorCol e)
                      compRows' (line e) (suggested e) (cursor e)) s in
  let s := emit (MoveCursorBackwards (term_GetWidth (world s))) s in
  let s := emit (MoveCursorUp compRows') s in
  emit (MoveCursorUp (hint_Coordinates (world s))) s.

Definition Refresh (s : state) : option state :=
  let s := emit HideCursor s in
  let s := CursorToLineStart s in
  let s := computeCoordinates s in
  let s := emit (MoveCursorBackwards (term_GetWidth (world s))) s in
  let s := emit (MoveCursorForwards (startCols (eng s))) s in
  s ← displayLine s;
  let s := emit (RightPrint (lineCol (eng s)) true) s in
  let s := displayHelpers s in
  let s := CursorHintToLineStart s in
  let s := LineStartToCursorPos s in
  Some (emit ShowCursor s).

End Collaborators.

Arguments eng {World} s.
Arguments world {World} s.
Arguments out {World} s.

(** The positions retained from one repaint to the next. *)
Definition geometry (e : Engine) : Z * Z * Z * Z * Z * Z :=
  (startCols e, startRows e, lineCol e, lineRows e, cursorRow e, cursorCol e).

(** The moves of [CursorToLineStart] for the positions held by [e]. *)
Definition to_line_start (e : Engine) : list term_op :=
  [MoveCursorBackwards (cursorCol e); MoveCursorUp (cursorRow e);
   MoveCursorForwards (startCols e - 1)].

(** [s'] printed what [s] had printed, then [more], and holds the same
    positions. *)
Definition prints {World} (s s' : state World) (more : list term_op)
    : Prop :=
  out s' = out s ++ more /\ geometry (eng s') = geometry (eng s).

End Display.

(** ** What the claims say, as predicates *)

Module TokeniseSpec.
Import Utf8 Tokenise.

(** A tokeniser's result on [line]: it returned; the segments concatenate
    to the line; [index] addresses a segment and [pos] lies within it. *)
Definition segments_line (line : list rune)
    (res : option (list gostring * Z * Z)) : Prop :=
  exists split index pos,
    res = Some (split, index, pos) /\
    concat split = string_of_runes line /\
    0 <= index < len split /\
    exists seg, go_index split index = Some seg /\ 0 <= pos <= len seg.

(** [sp'] is [sp] after [s] was added at its end: to the last segment or as
    a new one.  Segments keep their place and only grow. *)
Definition grows (sp sp' : list gostring) (s : gostring) : Prop :=
  concat sp' = concat sp ++ s /\
  (forall i seg, sp !! i = Some seg ->
     exists seg', sp' !! i = Some seg' /\ len seg <= len seg') /\
  exists seg, go_index sp' (len sp' - 1) = Some seg /\ len s <= len seg.

(** The invariant of both loops after [k] runes. *)
Definition inv (line : list rune) (k : nat) (v : vars) : Prop :=
  split v <> [] /\
  concat (split v) = string_of_runes (take k line) /\
  exists seg, go_index (split v) (index v) = Some seg /\ 0 <= pos v <= len seg.

End TokeniseSpec.

Module CompletionSpec.
Import Utf8 Completion.

(** The matcher that [prepareSuffix] records for the candidate [c] of the
    group [cur]. *)
Definition recorded (e : Engine) (cur : group) (c : gostring)
    : SuffixMatcher :=
  mkSuffixMatcher (sm_string (noSpace cur))
    (cursor e + len c - len (prefix e) - 1).

(** The invariant of the text buffer: the cursor is on the line or just
    after its last rune. *)
Definition cursor_in_line (e : Engine) : Prop :=
  0 <= cursor e <= len (line e).

(** The buffer holds Unicode scalar values. *)
Definition scalar_line (e : Engine) : Prop :=
  forallb valid_rune (line e) = true.

(** [c] is a candidate that completes the prefix of [e]: its value is not
    empty (the empty value is how the source writes that no candidate is
    selected) and is no shorter than the prefix. *)
Definition completes (e : Engine) (c : Candidate) : Prop :=
  0 < len (Value c) /\ len (prefix e) <= len (Value c).

(** The portion of the candidate [c] with the prefix [p] stripped, as
    runes. *)
Definition inserted_portion (p c : gostring) : list rune :=
  runes_of_string (drop (Z.to_nat (len p)) c).

(** The acceptance of [c] on a line, in the spec's words: remove the suffix
    region [[cur, cur + len(s))], insert the inserted portion at the cursor,
    which advances by its length, and put the suffix back at the cursor. *)
Definition accept_steps (l : Line.t) (cur : Z) (p s c : gostring)
    : Line.t * Z :=
  let l1 := Line.Cut l cur (cur + len s) in
  let l2 := Line.Insert l1 cur (inserted_portion p c) in
  let cur2 := cur + len (inserted_portion p c) in
  (Line.Insert l2 cur2 (runes_of_string s), cur2).

(** The block of [acceptCandidate] after [prepareSuffix] returned, [ins]
    being [completion[len(e.prefix):]]. *)
Definition accept_tail (e : Engine) (ins : gostring) : Engine :=
  let e := set_inserted (runes_of_string ins) e in
  let e := set_line
             (Line.Cut (line e) (cursor e) (cursor e + len (suffix e))) e in
  let '(l, c) := Cursor.InsertAt (line e) (cursor e) (inserted e) in
  let e := set_cursor c (set_line l e) in
  let e := set_line
             (Line.Insert (line e) (cursor e) (runes_of_string (suffix e)))
             e in
  set_suffix [] (set_prefix [] (set_inserted [] e)).

(** The block of [insertCandidate] after [prepareSuffix] returned. *)
Definition preview_tail (e : Engine) (ins : gostring) : Engine :=
  let e := set_inserted (runes_of_string ins) e in
  let completed : Line.t := runes_of_string (string_of_runes (line e)) in
  let compCursor := Cursor.Set_ completed (cursor e) in
  let completed :=
    Line.Cut completed compCursor (compCursor + len (suffix e)) in
  let '(completed, compCursor) :=
    Cursor.InsertAt completed compCursor (inserted e) in
  let completed :=
    Line.Insert completed compCursor (runes_of_string (suffix e)) in
  set_compCursor (Some compCursor) (set_compLine (Some completed) e).

(** The typed key is a member of the separator set [set]. *)
Definition member (key : rune) (set : gostring) : Prop :=
  In key (runes_of_string set).

(** The state in which the key typed after an acceptance finds the engine:
    no candidate is selected any more, the cursor is after a rune of the
    line, and the suffix matcher was recorded for that rune. *)
Definition after_acceptance (e : Engine) : Prop :=
  Value (selected e) = [] /\
  0 < cursor e <= len (line e) /\
  sm_pos (sm e) = cursor e - 1.

(** A first [TrimSuffix] deletes exactly the rune before the cursor, and a
    second one, called right after, deletes nothing. *)
Definition trims_once (e : Engine) : Prop :=
  exists e1 e2,
    TrimSuffix e = Some e1 /\
    line e1 = Line.CutRune (line e) (cursor e - 1) /\
    len (line e1) = len (line e) - 1 /\
    cursor e1 = cursor e - 1 /\
    TrimSuffix e1 = Some e2 /\
    line e2 = line e1 /\ cursor e2 = cursor e1.

(** [TrimSuffix] returns and leaves the line and the cursor as they are. *)
Definition keeps_line (e : Engine) : Prop :=
  exists e', TrimSuffix e = Some e' /\
             line e' = line e /\ cursor e' = cursor e.

(** The first guard of [TrimSuffix]: an empty line, a cursor at the start
    of the line, or a candidate being selected. *)
Definition nothing_to_trim (e : Engine) : Prop :=
  line e = [] \/ cursor e = 0 \/ Value (selected e) <> [].

End CompletionSpec.

(** Concrete states, after the scenarios of the specification. *)

Module Scenario.
Import Completion.

(** The bytes of an ASCII text; its runes are the same numbers. *)
Definition bytes (s : string) : gostring :=
  map (fun a => Z.of_nat (Ascii.nat_of_ascii a)) (String.list_ascii_of_string s).

Definition candidate (s : string) : Candidate := mkCandidate (bytes s) [] [].

(** Completing [cd /usr/loc] with the only candidate [local/] of a group
    whose separator set is [/]; the command was called with a tab. *)
Definition path_group : group :=
  mkGroup [candidate "local/"] 0 (mkSuffixMatcher (bytes "/") 0).

Definition path_engine : Engine :=
  mkEngine (bytes "cd /usr/loc") 11 None None emptyCandidate (bytes "loc") []
    [] emptyMatcher [9] [path_group] (Some 0%nat) false.

(** Three candidates and an empty prefix on the line [ls ], the first one
    selected. *)
Definition list_group : group :=
  mkGroup [candidate "foo"; candidate "bar"; candidate "baz"] 0 emptyMatcher.

Definition list_engine : Engine :=
  mkEngine (bytes "ls ") 3 None None emptyCandidate [] [] [] emptyMatcher [9]
    [list_group] (Some 0%nat) false.

(** A stacked flag: the prefix [-l] is completed by [-la], one byte more. *)
Definition flag_group : group :=
  mkGroup [candidate "-la"; candidate "-lh"] 0 emptyMatcher.

Definition flag_engine : Engine :=
  mkEngine (bytes "ls -l") 5 None None (candidate "-la") (bytes "-l") [] []
    emptyMatcher [9] [flag_group] (Some 0%nat) false.

(** [path_engine] once [local/] is selected. *)
Definition path_selected : Engine :=
  set_selected (candidate "local/") path_engine.

(** The state reached from [path_engine] once [local/] is accepted and the
    selection dropped, when the key [key] is typed. *)
Definition accepted (key : rune) : Engine :=
  mkEngine (bytes "cd /usr/local/") 14 None None emptyCandidate [] [] []
    (mkSuffixMatcher (bytes "/") 13) [key] [] None false.

(** The state reached from [path_engine] while [local/] is previewed. *)
Definition previewing : Engine :=
  mkEngine (bytes "cd /usr/loc") 11 (Some (bytes "cd /usr/local/")) (Some 14)
    (candidate "local/") (bytes "loc") [] (bytes "al/")
    (mkSuffixMatcher (bytes "/") 13) [9] [path_group] (Some 0%nat) false.

End Scenario.

(** Definitions for the edge cases and compositions proved at the end. *)

Module CompletionEdgeSpec.
Import Utf8 Completion.

(** The engine when the next key arrives after an acceptance: the selection
    was dropped ([e.selected = Candidate{}], as [cancelCompletedLine] does)
    and [key] is the key calling the command. *)
Definition next_key (key : rune) (e : Engine) : Engine :=
  set_keys [key] (set_selected emptyCandidate e).

End CompletionEdgeSpec.

Module TokeniseEdgeSpec.
Import Utf8 Tokenise.

(** How one iteration changes [split]: [s] goes to the last segment or,
    after the first rune only, to a new segment. *)
Definition shape (k : nat) (sp sp' : list gostring) (s : gostring) : Prop :=
  exists init x,
    sp = init ++ [x] /\
    (sp' = init ++ [x ++ s] \/ ((0 < k)%nat /\ sp' = init ++ [x; s])).

(** The byte offset that [index] and [pos] designate in the concatenation
    of the segments. *)
Definition offset (split : list gostring) (index pos : Z) : Z :=
  len (concat (take (Z.to_nat index) split)) + pos.

(** The invariant of both loops after [k] runes, with the place of the
    cursor: no segment but a last one still empty before the first rune is
    empty; once the rune at [linePos] is passed, [index] and [pos] designate
    the last byte of its encoding. *)
Definition located (line : list rune) (linePos : Z) (k : nat) (v : vars)
    : Prop :=
  exists init x,
    split v = init ++ [x] /\
    concat (split v) = string_of_runes (take k line) /\
    Forall (fun seg => seg <> []) init /\
    (x = [] -> k = 0%nat) /\
    (k = 0%nat -> punc v = false) /\
    if decide (0 <= linePos < Z.of_nat k) then
      0 <= index v < len (split v) /\
      offset (split v) (index v) (pos v) + 1 =
        len (string_of_runes (take (Z.to_nat linePos + 1) line))
    else index v = 0 /\ pos v = 0.

(** The rune before index [k] is a blank. *)
Definition after_blank (line : list rune) (k : nat) : bool :=
  match k with
  | O => false
  | S j => match line !! j with
           | Some p => isBlank p
           | None => false
           end
  end.

(** The two loops in step on a line without punctuation: same [split],
    [index] and [pos], and [punc] of [tokeniseLine] tells that the previous
    rune is a blank. *)
Definition in_step (line : list rune) (k : nat) (v1 v2 : vars) : Prop :=
  split v1 = split v2 /\ index v1 = index v2 /\ pos v1 = pos v2 /\
  punc v1 = after_blank line k.

End TokeniseEdgeSpec.

(** ** tokenise.go: the bracket tokeniser *)

Module Brackets.
Import Utf8.

(** [x[a:b]]: panics unless [0 <= a <= b <= len(x)].  (Go bounds [b] by the
    capacity; every [b] below is an index of the line.) *)
Definition go_slice {A} (l : list A) (a b : Z) : option (list A) :=
  if (0 <=? a) && (a <=? b) && (b <=? len l)
  then Some (take (Z.to_nat (b - a)) (drop (Z.to_nat a) l))
  else None.

(** A loop body either goes on to the next iteration or returns from the
    function. *)
Inductive flow (St R : Type) :=
| Next (s : St)
| Return (r : R).
Arguments Next {St R} s.
Arguments Return {St R} r.

(** [for i := range l { body }] with [return] inside the body. *)
Fixpoint range_until {A St R} (body : Z -> A -> St -> option (flow St R))
    (i : Z) (l : list A) (s : St) : option (flow St R) :=
  match l with
  | [] => Some (Next s)
  | r :: t =>
    f ← body i r s;
    match f with
    | Next s' => range_until body (i + 1) t s'
    | Return x => Some (Return x)
    end
  end.

(** The variables of [tokeniseBrackets] that the loop writes; [pos] is a
    map from [int] to [int]. *)
Record vars := Vars {
  split : list gostring;
  count : Z;
  pos : gmap Z Z;
  matched : Z;
  single : bool;
  double : bool
}.

(** [pos[k]]: a missing key reads as 0. *)
Definition pos_at (v : vars) (k : Z) : Z := default 0 (pos v !! k).

Definition result := (list gostring * Z * Z)%type.

(** The pair of brackets selected by the rune under the cursor. *)
Definition brackets (r : rune) : option (rune * rune) :=
  if (r =? 40) || (r =? 41) then Some (40, 41)
  else if (r =? 123) || (r =? 91) then Some (r, r + 2)
  else if (r =? 125) || (r =? 93) then Some (r - 2, r)
  else None.

Definition tokeniseBrackets_body (line : list rune) (linePos : Z)
    (open close : rune) (i : Z) (r : rune) (v : vars)
    : option (flow vars result) :=
  if r =? 39 then
    Some (Next (if single v then v
                else Vars (split v) (count v) (pos v) (matched v) (single v)
                       (negb (double v))))
  else if r =? 34 then
    Some (Next (if double v then v
                else Vars (split v) (count v) (pos v) (matched v)
                       (negb (single v)) (double v)))
  else if r =? open then
    if negb (single v) && negb (double v) then
      let count' := count v + 1 in
      let pos' := <[count' := i]> (pos v) in
      if i =? linePos then
        before ← go_slice line 0 (i - 1);
        Some (Next (Vars [string_of_runes before] count' pos' count'
                      (single v) (double v)))
      else
        Some (Next (Vars (split v) count' pos' (matched v) (single v)
                      (double v)))
    else if i =? linePos then Some (Return ([], 0, 0))
    else Some (Next v)
  else if r =? close then
    if negb (single v) && negb (double v) then
      if matched v =? count v then
        inside ← go_slice line (pos_at v (count v)) i;
        Some (Return (split v ++ [string_of_runes inside], 1, 0))
      else if i =? linePos then
        before ← go_slice line 0 (pos_at v (count v) - 1);
        inside ← go_slice line (pos_at v (count v)) i;
        Some (Return ([string_of_runes before; string_of_runes inside], 1,
                      len (string_of_runes inside)))
      else
        Some (Next (Vars (split v) (count v - 1) (pos v) (matched v)
                      (single v) (double v)))
    else if i =? linePos then Some (Return ([], 0, 0))
    else Some (Next v)
  else Some (Next v).

Definition tokeniseBrackets (line : list rune) (linePos : Z)
    : option result :=
  under ← go_index line linePos;
  match brackets under with
  | None => Some ([], 0, 0)
  | Some (open, close) =>
    f ← range_until (tokeniseBrackets_body line linePos open close) 0 line
          (Vars [] 0 ∅ 0 false false);
    match f with
    | Next _ => Some ([], 0, 0)
    | Return x => Some x
    end
  end.

(** A rune that the loop passes over when the brackets are [open] and
    [close]: no quote and none of the two. *)
Definition inert (open close r : rune) : Prop :=
  r <> 39 /\ r <> 34 /\ r <> open /\ r <> close.

(** [open] and [close] are one of the three pairs of brackets. *)
Definition pair (open close : rune) : Prop :=
  (open = 40 /\ close = 41) \/ (open = 123 /\ close = 125) \/
  (open = 91 /\ close = 93).

(** The results that [tokeniseBrackets] can return: nothing, or one or two
    segments with the index 1. *)
Definition shaped (x : result) : Prop :=
  x = ([], 0, 0) \/
  (exists a, x = ([a], 1, 0)) \/
  (exists a b, x = ([a; b], 1, 0) \/ x = ([a; b], 1, len b)).

End Brackets.

(** ** The display engine: the repaint that ends the input *)

Module DisplayAccept.
Import Display.

Section Collaborators.

Variable World : Type.
Variable completer_Line : World -> Line.t * Z.
Variable completer_IsInserting : World -> bool.
Variable histories_Suggest : World -> Line.t -> Line.t.
Variable keys_GetCursorPos : World -> Z * Z.
Variable prompt_LastUsed : World -> Z.
Variable opts_GetBool : World -> string -> bool.
Variable term_GetWidth : World -> Z.

Definition AcceptLine (s : state World) : state World :=
  let s := CursorToLineStart World s in
  let s := computeCoordinates World completer_Line completer_IsInserting
             histories_Suggest keys_GetCursorPos prompt_LastUsed opts_GetBool
             term_GetWidth s in
  let s := emit World (MoveCursorBackwards (term_GetWidth (world s))) s in
  let s := emit World (MoveCursorDown (lineRows (eng s))) s in
  let s := emit World (MoveCursorForwards (lineCol (eng s))) s in
  let s := emit World ClearScreenBelow s in
  let s := emit World (RightPrint (lineCol (eng s)) false) s in
  emit World Println s.

End Collaborators.

(** The other components changed between two repaints, the engine and what
    was printed being kept. *)
Definition with_world {World} (w : World) (s : state World) : state World :=
  mkState World (eng s) w (out s).

End DisplayAccept.

Module Utf8EdgeSpec.
Import Utf8.

(** What [[]rune(string(r))] makes of one rune: a rune that is no Unicode
    scalar value becomes U+FFFD. *)
Definition sanitise (r : rune) : rune :=
  if valid_rune r then r else RuneError.

End Utf8EdgeSpec.

(** ** undo.go *)

(** The file holds both sides of an unresolved merge.  The two sides agree
    on [undoItem], on [undoAppendHistory] and on the loop of [undoLast],
    which are embedded here; they differ in what [undoLast] prints after
    the loop, which is left out. *)

Module Undo.
Import Utf8.

Record undoItem := mkItem {
  uline : gostring;
  upos : Z
}.

(** The fields of [Instance] that the undo functions read or write. *)
Record Instance := mkInstance {
  line : list rune;
  pos : Z;
  viUndoHistory : list undoItem;
  viUndoSkipAppend : bool
}.

(** The deferred function clears [viUndoSkipAppend] on every return. *)
Definition undoAppendHistory (rl : Instance) : Instance :=
  if viUndoSkipAppend rl then
    mkInstance (line rl) (pos rl) (viUndoHistory rl) false
  else
    mkInstance (line rl) (pos rl)
      (viUndoHistory rl ++ [mkItem (string_of_runes (line rl)) (pos rl)])
      false.

(** The loop of [undoLast], at most [fuel] iterations of it: [None] when
    the fuel runs out or an index is out of range; otherwise the item the
    loop left in [undo] when it broke out ([None] when the function returned
    on an empty history) and the instance. *)
Fixpoint undoLast_loop (fuel : nat) (rl : Instance)
    : option (option undoItem * Instance) :=
  match fuel with
  | O => None
  | S fuel =>
    let h := viUndoHistory rl in
    if len h =? 0 then Some (None, rl)
    else
      undo ← go_index h (len h - 1);
      let rl := mkInstance (line rl) (pos rl)
                  (take (Z.to_nat (len h - 1)) h) (viUndoSkipAppend rl) in
      if negb (bool_decide (uline undo = string_of_runes (line rl)))
      then Some (Some undo, rl)
      else undoLast_loop fuel rl
  end.

(** The instance after the line was edited. *)
Definition edited (line' : list rune) (pos' : Z) (rl : Instance)
    : Instance :=
  mkInstance line' pos' (viUndoHistory rl) (viUndoSkipAppend rl).

End Undo.

(** * Proofs *)

(** ** Go values *)

Lemma len_nonneg {A} (l : list A) : 0 <= len l.
Proof. unfold len. lia. Qed.

Lemma len_app {A} (l k : list A) : len (l ++ k) = len l + len k.
Proof. unfold len. rewrite length_app. lia. Qed.

Lemma go_index_Some {A} (l : list A) (i : Z) (x : A) :
  go_index l i = Some x <-> 0 <= i < len l /\ l !! Z.to_nat i = Some x.
Proof.
  unfold go_index.
  destruct (0 <=? i) eqn:H0; destruct (i <? len l) eqn:H1; simpl;
    split; intros H; try discriminate; try lia; tauto || (split; [lia|exact H]).
Qed.

Lemma go_index_nat {A} (l : list A) (k : nat) (x : A) :
  l !! k = Some x -> go_index l (Z.of_nat k) = Some x.
Proof.
  intros H. apply go_index_Some. rewrite Nat2Z.id. split; [|exact H].
  apply lookup_lt_Some in H. unfold len. lia.
Qed.

(** A loop over a slice establishes [P (length line)] from [P 0] when each
    iteration carries [P k] to [P (k + 1)] without panicking. *)
Lemma range_loop_inv {A St} (body : Z -> A -> St -> option St)
    (P : nat -> St -> Prop) (line : list A) :
  (forall k r s, line !! k = Some r -> P k s ->
     exists s', body (Z.of_nat k) r s = Some s' /\ P (S k) s') ->
  forall s, P 0%nat s ->
  exists s', range_loop body 0 line s = Some s' /\ P (length line) s'.
Proof.
  intros Hstep.
  assert (Hgen : forall l k s, drop k line = l -> (k <= length line)%nat ->
            P k s ->
            exists s', range_loop body (Z.of_nat k) l s = Some s' /\
                       P (length line) s').
  { induction l as [|r t IH]; intros k s0 Hd Hk HP.
    - assert (k = length line) as ->.
      { apply (f_equal length) in Hd. rewrite length_drop in Hd.
        simpl in Hd. lia. }
      exists s0. split; [reflexivity|exact HP].
    - assert (Hr : line !! k = Some r).
      { rewrite <- (Nat.add_0_r k), <- lookup_drop, Hd. reflexivity. }
      destruct (Hstep k r s0 Hr HP) as (s1 & Hb & HP1).
      simpl. rewrite Hb. simpl.
      replace (Z.of_nat k + 1) with (Z.of_nat (S k)) by lia.
      apply IH; [|apply lookup_lt_Some in Hr; lia|exact HP1].
      rewrite (drop_S _ _ _ Hr) in Hd. congruence. }
  intros s0 H0. apply (Hgen line 0%nat s0); [apply drop_0|lia|exact H0].
Qed.

(** ** The tokenisers *)

Module TokeniseFacts.
Import Utf8 Tokenise TokeniseSpec.

Lemma encode_rune_nonempty (r : rune) : 0 < len (encode_rune r).
Proof.
  unfold encode_rune.
  repeat match goal with |- context [if ?b then _ else _] => destruct b end;
    unfold len; simpl; lia.
Qed.

Lemma string_of_runes_snoc (l : list rune) (r : rune) :
  string_of_runes (l ++ [r]) = string_of_runes l ++ encode_rune r.
Proof.
  unfold string_of_runes. rewrite map_app, concat_app. simpl.
  rewrite app_nil_r. reflexivity.
Qed.

Lemma add_to_last_snoc (init : list gostring) (x s : gostring) :
  add_to_last (init ++ [x]) s = Some (init ++ [x ++ s]).
Proof.
  unfold add_to_last.
  assert (Hi : len (init ++ [x]) - 1 = Z.of_nat (length init)).
  { rewrite len_app. unfold len. simpl. lia. }
  rewrite Hi, (go_index_nat _ _ x); [|apply list_lookup_middle; reflexivity].
  simpl. rewrite Nat2Z.id, insert_app_r_alt by lia.
  rewrite Nat.sub_diag. reflexivity.
Qed.

Lemma grows_snoc (init : list gostring) (x s : gostring) :
  grows (init ++ [x]) (init ++ [x ++ s]) s.
Proof.
  split; [|split].
  - rewrite !concat_app. simpl. rewrite !app_nil_r, app_assoc. reflexivity.
  - intros i seg Hi.
    destruct (decide (i < length init)%nat) as [Hlt|Hge].
    + rewrite lookup_app_l in Hi |- * by exact Hlt.
      exists seg. split; [exact Hi|lia].
    + rewrite lookup_app_r in Hi |- * by lia.
      destruct (i - length init)%nat; simpl in *; [|discriminate].
      injection Hi as <-. exists (x ++ s). split; [reflexivity|].
      rewrite len_app. pose proof (len_nonneg s). lia.
  - exists (x ++ s). split.
    + replace (len (init ++ [x ++ s]) - 1) with (Z.of_nat (length init))
        by (rewrite len_app; unfold len; simpl; lia).
      apply go_index_nat, list_lookup_middle. reflexivity.
    + rewrite len_app. pose proof (len_nonneg x). lia.
Qed.

Lemma add_to_last_grows (sp : list gostring) (s : gostring) :
  sp <> [] -> exists sp', add_to_last sp s = Some sp' /\ grows sp sp' s.
Proof.
  intros Hne. destruct sp as [|x init _] using rev_ind; [congruence|].
  exists (init ++ [x ++ s]). split; [apply add_to_last_snoc|apply grows_snoc].
Qed.

Lemma append_empty_grows (sp : list gostring) (s : gostring) :
  exists sp', add_to_last (append_empty sp) s = Some sp' /\ grows sp sp' s.
Proof.
  unfold append_empty. exists (sp ++ [[] ++ s]).
  split; [apply add_to_last_snoc|].
  destruct (grows_snoc sp [] s) as (Hc & Hl & Hlast).
  split; [|split].
  - rewrite Hc, concat_app. simpl. rewrite app_nil_r. reflexivity.
  - intros i seg Hi. apply Hl. apply lookup_app_l_Some. exact Hi.
  - exact Hlast.
Qed.

Lemma inv_init (line : list rune) : inv line 0 (Vars [[]] false 0 0).
Proof.
  split; [discriminate|]. split; [reflexivity|].
  exists []. split; [reflexivity|]. unfold len. simpl. lia.
Qed.

Lemma grows_nonempty (sp sp' : list gostring) (s : gostring) :
  grows sp sp' s -> sp' <> [].
Proof.
  intros (_ & _ & seg & Hs & _) ->. discriminate.
Qed.

(** One iteration: the branch added [string(r)] to [split], then the
    [i == linePos] block ran. *)
Lemma inv_step (line : list rune) (linePos : Z) (k : nat) (r : rune)
    (v : vars) (sp' : list gostring) (b : bool) :
  line !! k = Some r -> inv line k v ->
  grows (split v) sp' (encode_rune r) ->
  exists v', mark linePos (Z.of_nat k) (Vars sp' b (index v) (pos v)) = Some v'
             /\ inv line (S k) v'.
Proof.
  intros Hr (Hne & Hcat & seg & Hseg & Hpos) Hg.
  pose proof (grows_nonempty _ _ _ Hg) as Hne'.
  destruct Hg as (Hc & Hl & last & Hlast & Hlen).
  assert (Hcat' : concat sp' = string_of_runes (take (S k) line)).
  { rewrite (take_S_r _ _ _ Hr), string_of_runes_snoc, Hc, Hcat.
    reflexivity. }
  unfold mark. simpl. destruct (Z.of_nat k =? linePos).
  - rewrite Hlast. simpl. eexists. split; [reflexivity|].
    split; [exact Hne'|]. split; [exact Hcat'|]. simpl.
    exists last. split; [exact Hlast|].
    pose proof (encode_rune_nonempty r). lia.
  - eexists. split; [reflexivity|].
    split; [exact Hne'|]. split; [exact Hcat'|]. simpl.
    apply go_index_Some in Hseg as (Hi & Hseg).
    destruct (Hl _ _ Hseg) as (seg' & Hseg' & Hle).
    exists seg'. split; [|lia].
    apply go_index_Some. split; [|exact Hseg'].
    apply lookup_lt_Some in Hseg'. unfold len. lia.
Qed.

(** [line[i-1]] is in range in the guard [i > 0 && line[i-1] ...]. *)
Lemma previous_rune {B} (line : list rune) (k : nat) (r : rune)
    (f : rune -> B) (d : B) :
  line !! k = Some r ->
  exists o, (if 0 <? Z.of_nat k
             then p ← go_index line (Z.of_nat k - 1); Some (f p)
             else Some d) = Some o.
Proof.
  intros Hr. destruct (0 <? Z.of_nat k) eqn:Hk.
  - apply Z.ltb_lt in Hk.
    destruct (line !! (k - 1)%nat) as [p|] eqn:Hp.
    + exists (f p). replace (Z.of_nat k - 1) with (Z.of_nat (k - 1)) by lia.
      rewrite (go_index_nat _ _ _ Hp). reflexivity.
    + apply lookup_ge_None in Hp. apply lookup_lt_Some in Hr. lia.
  - eexists. reflexivity.
Qed.

Lemma tokeniseLine_body_inv (line : list rune) (linePos : Z) (k : nat)
    (r : rune) (v : vars) :
  line !! k = Some r -> inv line k v ->
  exists v', tokeniseLine_body line linePos (Z.of_nat k) r v = Some v' /\
             inv line (S k) v'.
Proof.
  intros Hr Hinv. pose proof Hinv as (Hne & _).
  unfold tokeniseLine_body.
  destruct (isPunctuation r); [|destruct (isBlank r)].
  - destruct (previous_rune line k r (fun p => negb (p =? r)) false Hr)
      as (o & ->).
    simpl. destruct o.
    + destruct (append_empty_grows (split v) (encode_rune r)) as (sp' & -> & Hg).
      simpl. eapply inv_step; eassumption.
    + destruct (add_to_last_grows (split v) (encode_rune r) Hne)
        as (sp' & -> & Hg).
      simpl. eapply inv_step; eassumption.
  - destruct (add_to_last_grows (split v) (encode_rune r) Hne)
      as (sp' & -> & Hg).
    simpl. eapply inv_step; eassumption.
  - destruct (punc v).
    + destruct (append_empty_grows (split v) (encode_rune r)) as (sp' & -> & Hg).
      simpl. eapply inv_step; eassumption.
    + destruct (add_to_last_grows (split v) (encode_rune r) Hne)
        as (sp' & -> & Hg).
      simpl. eapply inv_step; eassumption.
Qed.

Lemma tokeniseSplitSpaces_body_inv (line : list rune) (linePos : Z) (k : nat)
    (r : rune) (v : vars) :
  line !! k = Some r -> inv line k v ->
  exists v', tokeniseSplitSpaces_body line linePos (Z.of_nat k) r v = Some v'
             /\ inv line (S k) v'.
Proof.
  intros Hr Hinv. pose proof Hinv as (Hne & _).
  unfold tokeniseSplitSpaces_body.
  destruct (isBlank r).
  - destruct (add_to_last_grows (split v) (encode_rune r) Hne)
      as (sp' & -> & Hg).
    simpl. eapply inv_step; eassumption.
  - destruct (previous_rune line k r isBlank false Hr) as (o & ->).
    simpl. destruct o.
    + destruct (append_empty_grows (split v) (encode_rune r)) as (sp' & -> & Hg).
      simpl. eapply inv_step; eassumption.
    + destruct (add_to_last_grows (split v) (encode_rune r) Hne)
        as (sp' & -> & Hg).
      simpl. eapply inv_step; eassumption.
Qed.

(** What the invariant gives once the loop is over and the adjustment for a
    cursor at the end of the line is made. *)
Lemma inv_adjust (line : list rune) (linePos : Z) (v : vars) :
  inv line (length line) v ->
  segments_line line
    (v' ← adjust line linePos v; Some (split v', index v', pos v')).
Proof.
  intros (Hne & Hcat & seg & Hseg & Hpos).
  rewrite firstn_all in Hcat. unfold adjust.
  destruct (linePos =? len line).
  - remember (split v) as sp eqn:Hsp.
    destruct sp as [|x init _] using rev_ind; [congruence|].
    assert (Hlast : go_index (init ++ [x]) (len (init ++ [x]) - 1) = Some x).
    { replace (len (init ++ [x]) - 1) with (Z.of_nat (length init))
        by (rewrite len_app; unfold len; simpl; lia).
      apply go_index_nat, list_lookup_middle. reflexivity. }
    rewrite Hlast. simpl.
    exists (init ++ [x]), (len (init ++ [x]) - 1), (len x).
    split; [reflexivity|]. split; [exact Hcat|].
    split; [apply go_index_Some in Hlast; tauto|].
    exists x. split; [exact Hlast|]. pose proof (len_nonneg x). lia.
  - simpl. exists (split v), (index v), (pos v).
    split; [reflexivity|]. split; [exact Hcat|].
    split; [apply go_index_Some in Hseg; tauto|].
    exists seg. split; [exact Hseg|exact Hpos].
Qed.

Lemma tokeniseLine_segments (line : list rune) (linePos : Z) :
  line <> [] -> segments_line line (tokeniseLine line linePos).
Proof.
  intros Hne. unfold tokeniseLine.
  destruct (len line =? 0) eqn:Hlen.
  { apply Z.eqb_eq in Hlen. destruct line; [congruence|].
    unfold len in Hlen. simpl in Hlen. lia. }
  destruct (range_loop_inv (tokeniseLine_body line linePos) (inv line) line)
    with (s := Vars [[]] false 0 0) as (v & -> & Hinv).
  - intros k r s0. apply tokeniseLine_body_inv.
  - apply inv_init.
  - simpl. apply inv_adjust. exact Hinv.
Qed.

Lemma tokeniseSplitSpaces_segments (line : list rune) (linePos : Z) :
  line <> [] -> segments_line line (tokeniseSplitSpaces line linePos).
Proof.
  intros Hne. unfold tokeniseSplitSpaces.
  destruct (len line =? 0) eqn:Hlen.
  { apply Z.eqb_eq in Hlen. destruct line; [congruence|].
    unfold len in Hlen. simpl in Hlen. lia. }
  destruct (range_loop_inv (tokeniseSplitSpaces_body line linePos) (inv line)
              line) with (s := Vars [[]] false 0 0) as (v & -> & Hinv).
  - intros k r s0. apply tokeniseSplitSpaces_body_inv.
  - apply inv_init.
  - simpl. apply inv_adjust. exact Hinv.
Qed.

(** C10.  For every non-empty line and every cursor position [linePos] with
    [0 <= linePos <= len(line)], [tokeniseLine] and [tokeniseSplitSpaces]
    return: segments whose concatenation is the line, an index addressing
    one of the segments, and a position between 0 and the length of that
    segment.  For the empty line both return [(nil, 0, 0)]. *)
Theorem tokenisers_segment_the_line (line : list rune) (linePos : Z) :
  (line <> [] -> 0 <= linePos <= len line ->
     segments_line line (tokeniseLine line linePos) /\
     segments_line line (tokeniseSplitSpaces line linePos)) /\
  tokeniseLine [] linePos = Some ([], 0, 0) /\
  tokeniseSplitSpaces [] linePos = Some ([], 0, 0).
Proof.
  split; [|split; reflexivity].
  intros Hne _. split.
  - apply tokeniseLine_segments. exact Hne.
  - apply tokeniseSplitSpaces_segments. exact Hne.
Qed.

Lemma tokenisers_segment_the_line_witness :
  let line := [108; 115; 32; 45; 108; 97] in
  line <> [] /\ 0 <= 4 <= len line /\
  segments_line line (tokeniseLine line 4) /\
  segments_line line (tokeniseSplitSpaces line 4).
Proof.
  intros line.
  assert (Hne : line <> []) by discriminate.
  assert (Hpos : 0 <= 4 <= len line) by (unfold len; simpl; lia).
  split; [exact Hne|]. split; [exact Hpos|].
  exact (proj1 (tokenisers_segment_the_line line 4) Hne Hpos).
Defined.

End TokeniseFacts.

(** ** UTF-8 *)

Module Utf8Facts.
Import Utf8.

Ltac zlia := Z.div_mod_to_equations; lia.

Lemma valid_rune_range (r : rune) :
  valid_rune r = true <-> 0 <= r < 0xD800 \/ 0xE000 <= r <= 0x10FFFF.
Proof.
  unfold valid_rune, MaxRune.
  rewrite orb_true_iff, !andb_true_iff, !Z.leb_le, Z.ltb_lt. tauto.
Qed.

Lemma between_true (lo hi b : byte) : lo <= b <= hi -> between lo hi b = true.
Proof.
  intros H. unfold between. apply andb_true_iff.
  rewrite !Z.leb_le. exact H.
Qed.

Lemma between_false (lo hi b : byte) :
  b < lo \/ hi < b -> between lo hi b = false.
Proof.
  intros H. unfold between. apply andb_false_iff.
  rewrite !Z.leb_gt. tauto.
Qed.

(** The decoder on well-formed sequences of one to four bytes. *)
Lemma decode_rune_1 (b0 : byte) (rest : gostring) :
  0 <= b0 <= 0x7F -> decode_rune (b0 :: rest) = (b0, 1%nat).
Proof.
  intros H. unfold decode_rune. rewrite between_true by exact H.
  reflexivity.
Qed.

Lemma decode_rune_2 (b0 b1 : byte) (rest : gostring) :
  0xC2 <= b0 <= 0xDF -> 0x80 <= b1 <= 0xBF ->
  decode_rune (b0 :: b1 :: rest) = ((b0 - 0xC0) * 64 + low6 b1, 2%nat).
Proof.
  intros H0 H1. unfold decode_rune, cont.
  rewrite (between_false 0 0x7F), (between_true 0xC2 0xDF),
    (between_true 0x80 0xBF) by lia.
  reflexivity.
Qed.

Lemma decode_rune_3 (b0 b1 b2 : byte) (rest : gostring) :
  0xE0 <= b0 <= 0xEF -> second_lo b0 <= b1 <= second_hi b0 ->
  0x80 <= b2 <= 0xBF ->
  decode_rune (b0 :: b1 :: b2 :: rest) =
  ((b0 - 0xE0) * 4096 + low6 b1 * 64 + low6 b2, 3%nat).
Proof.
  intros H0 H1 H2. unfold decode_rune, cont.
  rewrite (between_false 0 0x7F), (between_false 0xC2 0xDF),
    (between_true 0xE0 0xEF), (between_true 0x80 0xBF) by lia.
  rewrite between_true by exact H1. reflexivity.
Qed.

Lemma decode_rune_4 (b0 b1 b2 b3 : byte) (rest : gostring) :
  0xF0 <= b0 <= 0xF4 -> second_lo b0 <= b1 <= second_hi b0 ->
  0x80 <= b2 <= 0xBF -> 0x80 <= b3 <= 0xBF ->
  decode_rune (b0 :: b1 :: b2 :: b3 :: rest) =
  ((b0 - 0xF0) * 262144 + low6 b1 * 4096 + low6 b2 * 64 + low6 b3, 4%nat).
Proof.
  intros H0 H1 H2 H3. unfold decode_rune, cont.
  rewrite (between_false 0 0x7F), (between_false 0xC2 0xDF),
    (between_false 0xE0 0xEF), (between_true 0xF0 0xF4),
    (between_true 0x80 0xBF b2), (between_true 0x80 0xBF b3) by lia.
  rewrite between_true by exact H1. reflexivity.
Qed.

Ltac second_byte :=
  unfold second_lo, second_hi;
  repeat match goal with
         | |- context [?a =? ?b] => destruct (Z.eqb_spec a b)
         end; zlia.

(** Decoding gives back a scalar value from its encoding. *)
Lemma decode_encode_rune (r : rune) (rest : gostring) :
  valid_rune r = true ->
  decode_from 0 (encode_rune r ++ rest) = r :: decode_from 0 rest.
Proof.
  intros Hv. pose proof (proj1 (valid_rune_range r) Hv) as Hr.
  unfold encode_rune. rewrite Hv. cbn [negb].
  destruct (Z.leb_spec 0 r); [|lia]. cbn [andb].
  destruct (Z.leb_spec r 0x7F).
  { cbn [app decode_from]. rewrite decode_rune_1 by lia. reflexivity. }
  destruct (Z.leb_spec r 0x7FF).
  { cbn [app decode_from]. rewrite decode_rune_2 by zlia.
    cbn [Nat.sub decode_from]. f_equal. unfold low6. zlia. }
  destruct (Z.leb_spec r 0xFFFF).
  { cbn [app decode_from].
    rewrite decode_rune_3 by first [second_byte | zlia].
    cbn [Nat.sub decode_from]. f_equal. unfold low6. zlia. }
  cbn [app decode_from].
  rewrite decode_rune_4 by first [second_byte | zlia].
  cbn [Nat.sub decode_from]. f_equal. unfold low6. zlia.
Qed.

(** [[]rune(string(l))] is [l] when [l] holds scalar values only. *)
Lemma runes_of_string_of_runes (l : list rune) :
  forallb valid_rune l = true ->
  runes_of_string (string_of_runes l) = l.
Proof.
  unfold runes_of_string, string_of_runes.
  induction l as [|r l IH]; intros Hv; [reflexivity|].
  simpl in Hv. apply andb_true_iff in Hv as (Hr & Hl).
  cbn [map concat]. rewrite decode_encode_rune by exact Hr.
  rewrite IH by exact Hl. reflexivity.
Qed.

End Utf8Facts.

(** ** The completion engine *)

Module CompletionFacts.
Import Utf8 Completion CompletionSpec.

Lemma go_slice_from_Some {A} (l : list A) (i : Z) :
  0 <= i <= len l -> go_slice_from l i = Some (drop (Z.to_nat i) l).
Proof.
  intros H. unfold go_slice_from.
  destruct (Z.leb_spec 0 i); [|lia].
  destruct (Z.leb_spec i (len l)); [|lia]. reflexivity.
Qed.

Lemma len_drop {A} (l : list A) (i : Z) :
  0 <= i <= len l -> len (drop (Z.to_nat i) l) = len l - i.
Proof. unfold len. rewrite length_drop. lia. Qed.

Lemma go_index_last {A} (l : list A) :
  0 < len l -> exists x, go_index l (len l - 1) = Some x.
Proof.
  intros H.
  destruct (lookup_lt_is_Some_2 l (Z.to_nat (len l - 1))) as (x & Hx).
  { unfold len in *. lia. }
  exists x. apply go_index_Some. split; [lia|exact Hx].
Qed.

Lemma go_index_head {A} (l : list A) :
  l <> [] -> exists x, go_index l 0 = Some x.
Proof.
  destruct l as [|x l]; [congruence|]. intros _. exists x. reflexivity.
Qed.

(** [prepareSuffix] on a selected candidate no shorter than the prefix: it
    returns the candidate whole; it records the matcher unless at most one
    byte remains after the prefix. *)
Lemma prepareSuffix_selected (e : Engine) (cur : group) :
  let c := Value (selected e) in
  currentGroup e = Some cur ->
  0 < len c -> len (prefix e) <= len c ->
  (1 < len c - len (prefix e) -> keys e <> []) ->
  prepareSuffix e =
  Some (if len c - len (prefix e) <=? 1 then e
        else set_sm (recorded e cur c) e, c).
Proof.
  intros c Hcur Hc Hp Hk. unfold prepareSuffix. rewrite Hcur. fold c.
  destruct (Z.ltb_spec 0 (len c)); [|lia].
  pose proof (len_nonneg (prefix e)) as Hp0.
  rewrite go_slice_from_Some by lia. simpl.
  rewrite len_drop by lia.
  destruct (Z.leb_spec (len c - len (prefix e)) 1); [reflexivity|].
  destruct (go_index_last c Hc) as (suf & ->).
  destruct (go_index_head (keys e)) as (key & ->); [apply Hk; lia|].
  simpl. fold (recorded e cur c).
  repeat match goal with |- context [if ?b then _ else _] => destruct b end;
    reflexivity.
Qed.

Lemma currentGroup_set_selected (x : Candidate) (e : Engine) :
  currentGroup (set_selected x e) = currentGroup e.
Proof. reflexivity. Qed.

(** C7.  [prepareSuffix], for the selected candidate [c] and the prefix
    [p]: if the portion of [c] that remains after stripping [p] has length
    at most 1, no suffix matcher is recorded and the candidate is returned
    untouched; otherwise the separator set of the group is recorded as the
    suffix matcher, with position [cursor + len(c) - len(p) - 1]. *)
Theorem prepareSuffix_records_matcher (e : Engine) (cur : group) :
  let c := Value (selected e) in
  let p := prefix e in
  let rest := drop (Z.to_nat (len p)) c in
  currentGroup e = Some cur ->
  (0 < len c -> len p <= len c -> len rest <= 1 ->
     prepareSuffix e = Some (e, c)) /\
  (1 < len rest -> keys e <> [] ->
     prepareSuffix e =
     Some (set_sm (mkSuffixMatcher (sm_string (noSpace cur))
                     (cursor e + len c - len p - 1)) e, c)).
Proof.
  intros c p rest Hcur. pose proof (len_nonneg p) as Hp0. split.
  - intros Hc Hp Hrest. unfold rest in Hrest. rewrite len_drop in Hrest by lia.
    rewrite (prepareSuffix_selected e cur Hcur Hc Hp) by (fold c p; lia).
    fold c p. destruct (Z.leb_spec (len c - len p) 1); [reflexivity|lia].
  - intros Hrest Hk.
    assert (Hp : len p < len c).
    { destruct (Z.lt_ge_cases (len p) (len c)) as [H|H]; [exact H|].
      unfold rest, len in Hrest. rewrite length_drop in Hrest.
      unfold len in H. lia. }
    unfold rest in Hrest. rewrite len_drop in Hrest by lia.
    rewrite (prepareSuffix_selected e cur Hcur) by (fold c p; auto; lia).
    fold c p. destruct (Z.leb_spec (len c - len p) 1); [lia|reflexivity].
Qed.

Lemma prepareSuffix_records_matcher_witness :
  prepareSuffix Scenario.flag_engine =
    Some (Scenario.flag_engine, Scenario.bytes "-la") /\
  prepareSuffix Scenario.path_selected =
    Some (set_sm (mkSuffixMatcher (Scenario.bytes "/") 13)
            Scenario.path_selected, Scenario.bytes "local/").
Proof.
  split.
  - apply (proj1 (prepareSuffix_records_matcher Scenario.flag_engine
                    Scenario.flag_group eq_refl));
      vm_compute; congruence.
  - apply (proj2 (prepareSuffix_records_matcher Scenario.path_selected
                    Scenario.path_group eq_refl));
      vm_compute; congruence.
Defined.

Lemma acceptCandidate_unfold (e : Engine) (cur : group) :
  currentGroup e = Some cur ->
  acceptCandidate e =
  (r ← prepareSuffix (set_selected (gselected cur) e);
   ins ← go_slice_from (snd r) (len (prefix (fst r)));
   Some (accept_tail (fst r) ins)).
Proof.
  intros Hcur. unfold acceptCandidate. rewrite Hcur.
  destruct (prepareSuffix (set_selected (gselected cur) e)) as [[e1 c]|];
    reflexivity.
Qed.

Lemma insertCandidate_unfold (e : Engine) (grp : group) :
  currentGroup e = Some grp ->
  len (prefix e) <= len (Value (gselected grp)) ->
  insertCandidate e =
  (r ← prepareSuffix (set_selected (gselected grp) e);
   ins ← go_slice_from (snd r) (len (prefix (fst r)));
   Some (preview_tail (fst r) ins)).
Proof.
  intros Hcur Hp. unfold insertCandidate. rewrite Hcur.
  change (len (Value (selected (set_selected (gselected grp) e))))
    with (len (Value (gselected grp))).
  change (prefix (set_selected (gselected grp) e)) with (prefix e).
  destruct (Z.ltb_spec (len (Value (gselected grp))) (len (prefix e)));
    [lia|].
  destruct (prepareSuffix (set_selected (gselected grp) e)) as [[e1 c]|];
    reflexivity.
Qed.

(** The matcher after [prepareSuffix] ran for the candidate [c]. *)
Lemma prepared_matcher (e : Engine) (cur : group) (c : gostring) (b : bool) :
  sm (if b then e else set_sm (recorded e cur c) e) =
  (if b then sm e else recorded e cur c).
Proof. destruct b; reflexivity. Qed.

(** [acceptCandidate] on a state whose current group selects a candidate
    that completes the prefix. *)
Lemma acceptCandidate_selected (e : Engine) (cur : group) :
  let c := gselected cur in
  let ins := inserted_portion (prefix e) (Value c) in
  let cut := Line.Cut (line e) (cursor e) (cursor e + len (suffix e)) in
  currentGroup e = Some cur -> completes e c -> keys e <> [] ->
  acceptCandidate e =
  Some (mkEngine
          (Line.Insert (Line.Insert cut (cursor e) ins)
             (cursor e + len ins) (runes_of_string (suffix e)))
          (cursor e + len ins) (compLine e) (compCursor e) c [] [] []
          (if len (Value c) - len (prefix e) <=? 1 then sm e
           else recorded e cur (Value c))
          (keys e) (groups e) (current e) (autoForce e)).
Proof.
  intros c ins cut Hcur (Hc & Hp) Hk.
  pose proof (len_nonneg (prefix e)) as Hp0.
  rewrite (acceptCandidate_unfold e cur Hcur).
  rewrite (prepareSuffix_selected (set_selected (gselected cur) e) cur)
    by (try exact Hcur; try exact Hc; try exact Hp; intros _; exact Hk).
  change (Value (selected (set_selected (gselected cur) e))) with (Value c).
  change (prefix (set_selected (gselected cur) e)) with (prefix e).
  destruct (len (Value c) - len (prefix e) <=? 1).
  - cbn [mbind option_bind fst snd].
    change (prefix (set_selected (gselected cur) e)) with (prefix e).
    rewrite go_slice_from_Some by lia. reflexivity.
  - cbn [mbind option_bind fst snd].
    change (prefix (set_sm _ _)) with (prefix e).
    rewrite go_slice_from_Some by lia. reflexivity.
Qed.

(** [insertCandidate] on the same states: the real line and cursor stay,
    the shadow line is built from a copy of the real one. *)
Lemma insertCandidate_selected (e : Engine) (grp : group) :
  let c := gselected grp in
  let ins := inserted_portion (prefix e) (Value c) in
  let copy := runes_of_string (string_of_runes (line e)) in
  let cc := Cursor.Set_ copy (cursor e) in
  let cut := Line.Cut copy cc (cc + len (suffix e)) in
  currentGroup e = Some grp -> completes e c -> keys e <> [] ->
  insertCandidate e =
  Some (mkEngine (line e) (cursor e)
          (Some (Line.Insert (Line.Insert cut cc ins) (cc + len ins)
                   (runes_of_string (suffix e))))
          (Some (cc + len ins)) c (prefix e) (suffix e) ins
          (if len (Value c) - len (prefix e) <=? 1 then sm e
           else recorded e grp (Value c))
          (keys e) (groups e) (current e) (autoForce e)).
Proof.
  intros c ins copy cc cut Hcur (Hc & Hp) Hk.
  pose proof (len_nonneg (prefix e)) as Hp0.
  rewrite (insertCandidate_unfold e grp Hcur Hp).
  rewrite (prepareSuffix_selected (set_selected (gselected grp) e) grp)
    by (try exact Hcur; try exact Hc; try exact Hp; intros _; exact Hk).
  change (Value (selected (set_selected (gselected grp) e))) with (Value c).
  change (prefix (set_selected (gselected grp) e)) with (prefix e).
  destruct (len (Value c) - len (prefix e) <=? 1).
  - cbn [mbind option_bind fst snd].
    change (prefix (set_selected (gselected grp) e)) with (prefix e).
    rewrite go_slice_from_Some by lia. reflexivity.
  - cbn [mbind option_bind fst snd].
    change (prefix (set_sm _ _)) with (prefix e).
    rewrite go_slice_from_Some by lia. reflexivity.
Qed.

(** C4.  [acceptCandidate], on a state with prefix [p], suffix [s] and
    selected candidate [c], performs these steps on the real line: it cuts
    the range [[cursor, cursor + len(s))], inserts at the cursor the portion
    of [c] with [p] stripped, the cursor advancing by its length, inserts
    [s] again at the resulting cursor, and resets the inserted, prefix and
    suffix bookkeeping to empty. *)
Theorem acceptCandidate_performs_the_steps (e : Engine) (cur : group) :
  let c := gselected cur in
  currentGroup e = Some cur -> completes e c -> keys e <> [] ->
  exists e',
    acceptCandidate e = Some e' /\
    (line e', cursor e') =
      accept_steps (line e) (cursor e) (prefix e) (suffix e) (Value c) /\
    inserted e' = [] /\ prefix e' = [] /\ suffix e' = [] /\
    selected e' = c /\
    compLine e' = compLine e /\ compCursor e' = compCursor e.
Proof.
  intros c Hcur Hc Hk.
  rewrite (acceptCandidate_selected e cur Hcur Hc Hk).
  eexists. split; [reflexivity|]. cbn [line cursor inserted prefix suffix
    selected compLine compCursor]. unfold accept_steps.
  repeat split; reflexivity.
Qed.

Lemma acceptCandidate_performs_the_steps_witness :
  exists e',
    acceptCandidate Scenario.path_engine = Some e' /\
    line e' = Scenario.bytes "cd /usr/local/" /\ cursor e' = 14 /\
    inserted e' = [] /\ prefix e' = [] /\ suffix e' = [].
Proof.
  destruct (acceptCandidate_performs_the_steps Scenario.path_engine
              Scenario.path_group eq_refl)
    as (e' & Hacc & Hline & Hi & Hp & Hs & _).
  - vm_compute. split; [reflexivity|]. congruence.
  - vm_compute. congruence.
  - exists e'. split; [exact Hacc|].
    vm_compute in Hline. injection Hline as Hl Hc.
    split; [exact Hl|]. split; [exact Hc|]. auto.
Defined.

Lemma clamp_in_line (l : Line.t) (x : Z) :
  0 <= x <= len l -> Line.clamp l x = x.
Proof. unfold Line.clamp. lia. Qed.

(** [cancelCompletedLine] when there is a shadow line. *)
Lemma cancelCompletedLine_shadow (e : Engine) (cl : Line.t) (cc : Z) :
  compLine e = Some cl -> compCursor e = Some cc ->
  cancelCompletedLine e =
  Some (mkEngine (line e) (cursor e) (Some (line e))
          (Some (Line.clamp (line e) (cursor e))) emptyCandidate (prefix e)
          (suffix e) (inserted e) (sm e) (keys e) (groups e) (current e)
          (autoForce e)).
Proof.
  intros Hl Hc. unfold cancelCompletedLine. rewrite Hl, Hc. reflexivity.
Qed.

(** C3.  For every real line and cursor position, entering a preview with
    [insertCandidate] and then cancelling it with [cancelCompletedLine],
    the real line not being changed in between, makes the shadow line
    identical to the real line, sets the shadow cursor to the real cursor
    and clears the selected candidate. *)
Theorem preview_then_cancel_mirrors_the_line (e : Engine) (grp : group)
    (ks : list rune) :
  currentGroup e = Some grp -> completes e (gselected grp) ->
  keys e <> [] -> cursor_in_line e ->
  exists e1 e2,
    insertCandidate e = Some e1 /\
    cancelCompletedLine (set_keys ks e1) = Some e2 /\
    compLine e2 = Some (line e) /\ compCursor e2 = Some (cursor e) /\
    selected e2 = emptyCandidate /\
    line e2 = line e /\ cursor e2 = cursor e.
Proof.
  intros Hcur Hc Hk Hin.
  rewrite (insertCandidate_selected e grp Hcur Hc Hk).
  eexists. eexists. split; [reflexivity|].
  split; [eapply cancelCompletedLine_shadow; reflexivity|].
  cbn [set_keys compLine compCursor selected line cursor].
  rewrite (clamp_in_line _ _ Hin). repeat split; reflexivity.
Qed.

Lemma preview_then_cancel_mirrors_the_line_witness :
  exists e1 e2,
    insertCandidate Scenario.path_engine = Some e1 /\
    cancelCompletedLine (set_keys [27] e1) = Some e2 /\
    compLine e2 = Some (Scenario.bytes "cd /usr/loc") /\
    compCursor e2 = Some 11 /\ selected e2 = emptyCandidate.
Proof.
  destruct (preview_then_cancel_mirrors_the_line Scenario.path_engine
              Scenario.path_group [27] eq_refl)
    as (e1 & e2 & H1 & H2 & H3 & H4 & H5 & _).
  - vm_compute. split; [reflexivity|]. congruence.
  - vm_compute. congruence.
  - vm_compute. split; congruence.
  - exists e1, e2. auto.
Defined.

(** C1.  When a candidate is previewed, the shadow line having been built
    by [insertCandidate] over a copy of the real line with the same prefix
    and suffix, accepting the candidate with [acceptCandidate] leaves the
    real line equal to the content the shadow line had just before. *)
Theorem accepted_line_is_the_shadow_line (e : Engine) (grp : group)
    (ks : list rune) :
  currentGroup e = Some grp -> completes e (gselected grp) ->
  keys e <> [] -> ks <> [] -> cursor_in_line e -> scalar_line e ->
  exists e1 shadow e2,
    insertCandidate e = Some e1 /\
    compLine e1 = Some shadow /\
    acceptCandidate (set_keys ks e1) = Some e2 /\
    line e2 = shadow.
Proof.
  intros Hcur Hc Hk Hks Hin Hsc.
  rewrite (insertCandidate_selected e grp Hcur Hc Hk).
  eexists. eexists. eexists. split; [reflexivity|].
  split; [reflexivity|].
  split; [apply (acceptCandidate_selected _ grp);
          [exact Hcur|exact Hc|exact Hks]|].
  cbn [set_keys line cursor prefix suffix].
  rewrite (Utf8Facts.runes_of_string_of_runes _ Hsc).
  unfold Cursor.Set_. rewrite (clamp_in_line _ _ Hin). reflexivity.
Qed.

Lemma accepted_line_is_the_shadow_line_witness :
  exists e1 e2,
    insertCandidate Scenario.path_engine = Some e1 /\
    compLine e1 = Some (Scenario.bytes "cd /usr/local/") /\
    acceptCandidate (set_keys [13] e1) = Some e2 /\
    line e2 = Scenario.bytes "cd /usr/local/".
Proof.
  destruct (accepted_line_is_the_shadow_line Scenario.path_engine
              Scenario.path_group [13] eq_refl)
    as (e1 & shadow & e2 & H1 & H2 & H3 & H4).
  - vm_compute. split; [reflexivity|]. congruence.
  - vm_compute. congruence.
  - congruence.
  - vm_compute. split; congruence.
  - reflexivity.
  - exists e1, e2. split; [exact H1|].
    assert (Hs : shadow = Scenario.bytes "cd /usr/local/").
    { pose proof H1 as H1'. vm_compute in H1'. injection H1' as <-.
      vm_compute in H2. vm_compute. congruence. }
    rewrite Hs in *. auto.
Defined.

(** The concrete states of the scenarios are states the code reaches. *)
Lemma accepted_is_reached (key : rune) :
  (e ← acceptCandidate Scenario.path_engine;
   Some (set_keys [key] (set_selected emptyCandidate (ClearMenu true e)))) =
  Some (Scenario.accepted key).
Proof. reflexivity. Qed.

Lemma previewing_is_reached :
  insertCandidate Scenario.path_engine = Some Scenario.previewing.
Proof. reflexivity. Qed.

Lemma notMatcher_false (key : rune) (set : gostring) :
  notMatcher key set = false <-> member key set.
Proof.
  unfold notMatcher, member.
  induction (runes_of_string set) as [|r l IH]; simpl.
  - split; [discriminate|tauto].
  - destruct (Z.eqb_spec r key) as [->|Hne]; simpl.
    + split; auto.
    + rewrite IH. split; [auto|]. intros [H|H]; [congruence|exact H].
Qed.

Lemma notMatcher_true (key : rune) (set : gostring) :
  notMatcher key set = true <-> ~ member key set.
Proof.
  rewrite <- notMatcher_false. destruct (notMatcher key set); split;
    congruence.
Qed.

Lemma Matches_member (m : SuffixMatcher) (key : rune) :
  member key (sm_string m) -> Matches m (encode_rune key) = true.
Proof.
  intros H. unfold Matches. apply orb_true_iff. right.
  apply existsb_exists. exists key. split; [exact H|].
  apply bool_decide_eq_true. reflexivity.
Qed.

Lemma CutRune_length (l : Line.t) (i : Z) :
  0 <= i < len l -> len (Line.CutRune l i) = len l - 1.
Proof.
  intros Hi. unfold Line.CutRune, Line.Cut.
  destruct (Z.leb_spec 0 i); [|lia]. destruct (Z.ltb_spec i (len l)); [|lia].
  cbn [andb]. rewrite !clamp_in_line by lia.
  destruct (Z.ltb_spec i (i + 1)); [|lia].
  unfold len in *. rewrite length_app, length_take, length_drop. lia.
Qed.

(** The first guard of [TrimSuffix]. *)
Lemma TrimSuffix_guard (e : Engine) :
  nothing_to_trim e -> TrimSuffix e = Some e.
Proof.
  intros H. unfold TrimSuffix, Line.Len.
  destruct (Z.eqb_spec (len (line e)) 0) as [|Hl]; [reflexivity|].
  destruct (Z.eqb_spec (cursor e) 0) as [|Hc]; [reflexivity|].
  destruct (Z.ltb_spec 0 (len (Value (selected e)))) as [|Hs]; [reflexivity|].
  exfalso. destruct H as [H|[H|H]].
  - rewrite H in Hl. apply Hl. reflexivity.
  - contradiction.
  - destruct (Value (selected e)); [congruence|].
    unfold len in Hs. simpl in Hs. lia.
Qed.

Lemma TrimSuffix_past_guard (e : Engine) :
  ~ nothing_to_trim e ->
  (Line.Len (line e) =? 0) || (cursor e =? 0) ||
  (0 <? len (Value (selected e))) = false.
Proof.
  intros H. unfold Line.Len.
  destruct (Z.eqb_spec (len (line e)) 0) as [Hl|Hl].
  { exfalso. apply H. left. destruct (line e); [reflexivity|].
    unfold len in Hl. simpl in Hl. lia. }
  destruct (Z.eqb_spec (cursor e) 0) as [Hc|Hc].
  { exfalso. apply H. right. left. exact Hc. }
  destruct (Z.ltb_spec 0 (len (Value (selected e)))) as [Hs|Hs];
    [|reflexivity].
  exfalso. apply H. right. right. intros Hv. rewrite Hv in Hs.
  unfold len in Hs. simpl in Hs. lia.
Qed.

(** An orphaned matcher past the first guard. *)
Lemma TrimSuffix_orphan (e : Engine) :
  ~ nothing_to_trim e -> sm_pos (sm e) <> cursor e - 1 ->
  TrimSuffix e = Some (set_sm emptyMatcher e).
Proof.
  intros Hg Ho. unfold TrimSuffix. rewrite (TrimSuffix_past_guard e Hg).
  destruct (Z.eqb_spec (sm_pos (sm e)) (cursor e - 1)); [contradiction|].
  reflexivity.
Qed.

(** A valid matcher: what the typed key decides. *)
Lemma TrimSuffix_valid (e : Engine) (suf key : rune) (ks : list rune) :
  ~ nothing_to_trim e -> sm_pos (sm e) = cursor e - 1 ->
  go_index (line e) (cursor e - 1) = Some suf -> keys e = key :: ks ->
  TrimSuffix e =
  Some (if (suf =? 47) && negb (key =? Space) &&
           notMatcher key (sm_string (sm e))
        then e
        else if Matches (sm e) (encode_rune key) || IsSpace key
        then mkEngine (Line.CutRune (line e) (Cursor.Dec (cursor e)))
               (Cursor.Dec (cursor e)) (compLine e) (compCursor e)
               (selected e) (prefix e) (suffix e) (inserted e) (sm e)
               (keys e) (groups e) (current e) (autoForce e)
        else e).
Proof.
  intros Hg Hv Hsuf Hk. unfold TrimSuffix.
  rewrite (TrimSuffix_past_guard e Hg).
  destruct (Z.eqb_spec (sm_pos (sm e)) (cursor e - 1)); [|contradiction].
  cbn [negb]. rewrite Hsuf. cbn [mbind option_bind].
  assert (Hkey : go_index (keys e) 0 = Some key).
  { rewrite Hk. apply go_index_Some. unfold len. simpl. split; [lia|].
    reflexivity. }
  rewrite Hkey. cbn [mbind option_bind].
  destruct ((suf =? 47) && negb (key =? Space) &&
            notMatcher key (sm_string (sm e))); [reflexivity|].
  destruct (Matches (sm e) (encode_rune key) || IsSpace key); reflexivity.
Qed.

Lemma nothing_to_trim_dec (e : Engine) :
  {nothing_to_trim e} + {~ nothing_to_trim e}.
Proof.
  unfold nothing_to_trim.
  destruct (line e) as [|r l]; [left; auto|].
  destruct (Z.eq_dec (cursor e) 0) as [Hc|Hc]; [left; auto|].
  destruct (Value (selected e)) as [|b v].
  - right. intros [H|[H|H]]; congruence.
  - left. right. right. discriminate.
Qed.

(** C2, amended.  After the acceptance of a candidate whose trailing
    separator was recorded in the suffix matcher at position [cursor - 1], a
    first [TrimSuffix] deletes exactly the rune before the cursor when the
    typed key is a member of the recorded separator set, or the space
    character, or another whitespace character while the rune before the
    cursor is not [/]; a second [TrimSuffix] called right after deletes
    nothing. *)
Theorem TrimSuffix_trims_once (e : Engine) (key : rune) (ks : list rune) :
  after_acceptance e -> keys e = key :: ks ->
  (member key (sm_string (sm e)) \/ key = Space \/
   (IsSpace key = true /\ go_index (line e) (cursor e - 1) <> Some 47)) ->
  trims_once e.
Proof.
  intros (Hsel & Hcur & Hpos) Hk Hkey.
  assert (Hg : ~ nothing_to_trim e).
  { intros [H|[H|H]]; [|lia|contradiction].
    rewrite H in Hcur. unfold len in Hcur. simpl in Hcur. lia. }
  destruct (lookup_lt_is_Some_2 (line e) (Z.to_nat (cursor e - 1)))
    as (suf & Hsuf); [unfold len in Hcur; lia|].
  assert (Hsuf' : go_index (line e) (cursor e - 1) = Some suf).
  { apply go_index_Some. split; [lia|exact Hsuf]. }
  pose proof (TrimSuffix_valid e suf key ks Hg Hpos Hsuf' Hk) as Ht.
  assert (Hspecial : (suf =? 47) && negb (key =? Space) &&
                     notMatcher key (sm_string (sm e)) = false).
  { destruct Hkey as [Hm|[->|[_ Hne]]].
    - apply notMatcher_false in Hm. rewrite Hm. apply andb_false_r.
    - rewrite Z.eqb_refl. cbn [negb]. rewrite andb_false_r. reflexivity.
    - destruct (Z.eqb_spec suf 47) as [->|]; [congruence|reflexivity]. }
  assert (Hcut : Matches (sm e) (encode_rune key) || IsSpace key = true).
  { destruct Hkey as [Hm|[->|[Hs _]]].
    - rewrite (Matches_member _ _ Hm). reflexivity.
    - apply orb_true_r.
    - rewrite Hs. apply orb_true_r. }
  rewrite Hspecial, Hcut in Ht.
  assert (Hdec : Cursor.Dec (cursor e) = cursor e - 1).
  { unfold Cursor.Dec. destruct (Z.ltb_spec 0 (cursor e)); [reflexivity|lia]. }
  rewrite Hdec in Ht.
  set (e1 := mkEngine (Line.CutRune (line e) (cursor e - 1)) (cursor e - 1)
               (compLine e) (compCursor e) (selected e) (prefix e) (suffix e)
               (inserted e) (sm e) (keys e) (groups e) (current e)
               (autoForce e)) in *.
  assert (Hlen : len (line e1) = len (line e) - 1).
  { apply CutRune_length. lia. }
  destruct (nothing_to_trim_dec e1) as [Hg1|Hg1].
  - exists e1, e1. split; [exact Ht|]. split; [reflexivity|].
    split; [exact Hlen|]. split; [reflexivity|].
    split; [apply TrimSuffix_guard; exact Hg1|]. split; reflexivity.
  - exists e1, (set_sm emptyMatcher e1). split; [exact Ht|].
    split; [reflexivity|]. split; [exact Hlen|]. split; [reflexivity|].
    split; [|split; reflexivity].
    apply TrimSuffix_orphan; [exact Hg1|]. cbn [e1 sm cursor]. lia.
Qed.

Lemma TrimSuffix_trims_once_witness :
  trims_once (Scenario.accepted 47) /\ trims_once (Scenario.accepted 32).
Proof.
  split.
  - apply (TrimSuffix_trims_once (Scenario.accepted 47) 47 []).
    + vm_compute. repeat split; congruence.
    + reflexivity.
    + left. vm_compute. left. reflexivity.
  - apply (TrimSuffix_trims_once (Scenario.accepted 32) 32 []).
    + vm_compute. repeat split; congruence.
    + reflexivity.
    + right. left. reflexivity.
Defined.

(** C2 as stated fails: after the acceptance of [local/], the matcher being
    recorded at [cursor - 1], a tab is a whitespace key and [TrimSuffix]
    deletes nothing. *)
Lemma TrimSuffix_keeps_slash_on_tab :
  after_acceptance (Scenario.accepted 9) /\
  keys (Scenario.accepted 9) = [9] /\ IsSpace 9 = true /\
  TrimSuffix (Scenario.accepted 9) = Some (Scenario.accepted 9) /\
  ~ trims_once (Scenario.accepted 9).
Proof.
  split; [vm_compute; repeat split; congruence|].
  split; [reflexivity|]. split; [reflexivity|]. split; [reflexivity|].
  intros (e1 & e2 & H1 & _ & Hlen & _).
  vm_compute in H1. injection H1 as <-. vm_compute in Hlen. discriminate.
Qed.

(** C6, amended.  For a completion whose last character is the path
    separator [/]: if the typed key is neither a member of the recorded
    separator set nor the space character, the separator is kept.
    [prepareSuffix] returns the candidate whole, and [TrimSuffix] leaves
    the line and the cursor as they are. *)
Theorem slash_kept_unless_separator_or_space (key : rune) (ks : list rune) :
  key <> Space ->
  (forall e cur,
     currentGroup e = Some cur -> completes e (selected e) ->
     keys e = key :: ks ->
     HasSuffix (Value (selected e)) [47] = true ->
     ~ member key (sm_string (noSpace cur)) ->
     exists e', prepareSuffix e = Some (e', Value (selected e))) /\
  (forall e,
     keys e = key :: ks ->
     go_index (line e) (cursor e - 1) = Some 47 ->
     ~ member key (sm_string (sm e)) ->
     keeps_line e).
Proof.
  intros Hnsp. split.
  - intros e cur Hcur (Hc & Hp) Hk _ _.
    rewrite (prepareSuffix_selected e cur Hcur Hc Hp)
      by (intros _; rewrite Hk; discriminate).
    eexists. reflexivity.
  - intros e Hk Hsuf Hnm. unfold keeps_line.
    destruct (nothing_to_trim_dec e) as [Hg|Hg].
    { exists e. split; [apply TrimSuffix_guard; exact Hg|]. auto. }
    destruct (Z.eq_dec (sm_pos (sm e)) (cursor e - 1)) as [Hv|Ho].
    + exists e. split; [|auto].
      rewrite (TrimSuffix_valid e 47 key ks Hg Hv Hsuf Hk).
      apply notMatcher_true in Hnm. rewrite Hnm.
      destruct (Z.eqb_spec key Space); [contradiction|]. reflexivity.
    + exists (set_sm emptyMatcher e).
      split; [apply TrimSuffix_orphan; assumption|]. auto.
Qed.

Lemma slash_kept_unless_separator_or_space_witness :
  keeps_line (Scenario.accepted 120) /\
  exists e', prepareSuffix (set_keys [120] Scenario.path_selected) =
             Some (e', Scenario.bytes "local/").
Proof.
  assert (Hnsp : 120 <> Space) by discriminate.
  destruct (slash_kept_unless_separator_or_space 120 [] Hnsp) as (Hp & Ht).
  split.
  - apply Ht; [reflexivity|reflexivity|].
    vm_compute. intros [H|[]]. discriminate.
  - apply (Hp (set_keys [120] Scenario.path_selected) Scenario.path_group).
    + reflexivity.
    + vm_compute. split; [reflexivity|]. congruence.
    + reflexivity.
    + reflexivity.
    + vm_compute. intros [H|[]]. discriminate.
Defined.

(** C6 as stated fails: after the acceptance of [local/] with the separator
    set [/], the space character is no member of the set and [TrimSuffix]
    removes the separator. *)
Lemma TrimSuffix_removes_slash_on_space :
  ~ member Space (sm_string (sm (Scenario.accepted Space))) /\
  go_index (line (Scenario.accepted Space))
    (cursor (Scenario.accepted Space) - 1) = Some 47 /\
  (exists e', TrimSuffix (Scenario.accepted Space) = Some e' /\
              line e' = Scenario.bytes "cd /usr/local") /\
  ~ keeps_line (Scenario.accepted Space).
Proof.
  split; [vm_compute; intros [H|[]]; discriminate|].
  split; [reflexivity|]. split.
  - eexists. split; reflexivity.
  - intros (e' & H & Hl & _). vm_compute in H. injection H as <-.
    vm_compute in Hl. discriminate.
Qed.

(** C9, amended.  When [TrimSuffix] runs while the recorded position of the
    suffix matcher differs from [cursor - 1], it returns without an error
    and leaves the line and the cursor unchanged, no character being
    deleted; the matcher is cleared to the empty matcher when the line is
    not empty, the cursor is not at its start and no candidate is selected,
    and the whole state is left as it is otherwise. *)
Theorem orphaned_matcher_cleared_past_the_guard (e : Engine) :
  sm_pos (sm e) <> cursor e - 1 ->
  keeps_line e /\
  (~ nothing_to_trim e -> TrimSuffix e = Some (set_sm emptyMatcher e)) /\
  (nothing_to_trim e -> TrimSuffix e = Some e).
Proof.
  intros Ho. split; [|split].
  - unfold keeps_line. destruct (nothing_to_trim_dec e) as [Hg|Hg].
    + exists e. split; [apply TrimSuffix_guard; exact Hg|]. auto.
    + exists (set_sm emptyMatcher e).
      split; [apply TrimSuffix_orphan; assumption|]. auto.
  - intros Hg. apply TrimSuffix_orphan; assumption.
  - apply TrimSuffix_guard.
Qed.

Lemma orphaned_matcher_cleared_past_the_guard_witness :
  TrimSuffix (set_cursor 3 (Scenario.accepted 120)) =
  Some (set_sm emptyMatcher (set_cursor 3 (Scenario.accepted 120))).
Proof.
  apply (orphaned_matcher_cleared_past_the_guard
           (set_cursor 3 (Scenario.accepted 120))).
  - vm_compute. discriminate.
  - vm_compute. intros [H|[H|H]]; [discriminate|discriminate|].
    apply H. reflexivity.
Defined.

(** C9 as stated fails: while [local/] is previewed the matcher is recorded
    for position 13 and the real cursor is at 11; [TrimSuffix] returns at
    its first guard and the matcher is not cleared. *)
Lemma TrimSuffix_keeps_orphan_while_previewing :
  sm_pos (sm Scenario.previewing) <> cursor Scenario.previewing - 1 /\
  TrimSuffix Scenario.previewing = Some Scenario.previewing /\
  sm Scenario.previewing <> emptyMatcher.
Proof.
  split; [vm_compute; discriminate|]. split; [reflexivity|].
  vm_compute. discriminate.
Qed.

(** [prepareSuffix] writes the suffix matcher and nothing else. *)
Lemma prepareSuffix_frame (e e1 : Engine) (c : gostring) :
  prepareSuffix e = Some (e1, c) ->
  e1 = e \/ exists m, e1 = set_sm m e.
Proof.
  unfold prepareSuffix.
  destruct (currentGroup e) as [cur|]; [|intros [= <- <-]; auto].
  destruct (if 0 <? len (Value (selected e))
            then rest ← go_slice_from (Value (selected e)) (len (prefix e));
                 Some (len rest <=? 1)
            else Some false) as [[|]|]; cbn [mbind option_bind];
    [intros [= <- <-]; auto| |discriminate].
  destruct (go_index (Value (selected e)) (len (Value (selected e)) - 1));
    cbn [mbind option_bind]; [|discriminate].
  destruct (go_index (keys e) 0); cbn [mbind option_bind]; [|discriminate].
  repeat match goal with |- context [if ?b then _ else _] => destruct b end;
    intros [= <- <-]; right; eexists; reflexivity.
Qed.

(** [insertCandidate] never writes the real line or the real cursor. *)
Lemma insertCandidate_keeps_real_line (e e' : Engine) :
  insertCandidate e = Some e' -> line e' = line e /\ cursor e' = cursor e.
Proof.
  unfold insertCandidate.
  destruct (currentGroup e) as [grp|]; [|intros [= <-]; auto].
  destruct (len (Value (selected (set_selected (gselected grp) e))) <?
            len (prefix (set_selected (gselected grp) e)));
    [intros [= <-]; auto|].
  destruct (prepareSuffix (set_selected (gselected grp) e))
    as [[e1 c]|] eqn:Hp; cbn [mbind option_bind]; [|discriminate].
  destruct (go_slice_from c (len (prefix e1))); cbn [mbind option_bind];
    [|discriminate].
  intros [= <-].
  destruct (prepareSuffix_frame _ _ _ Hp) as [->|(m & ->)]; auto.
Qed.

(** C5.  When [refreshLine] runs with a non-empty candidate set and exactly
    one candidate exists across all groups, that candidate is accepted into
    the real line by [acceptCandidate] and the menu is cleared, with no
    virtual insertion: the state handed to [ResetForce], the last call and
    a parameter here, has the real line and cursor of the acceptance steps,
    no group left and the shadow line and cursor found on entry.  In every
    other non-empty case [refreshLine] is [insertCandidate]: the real line
    and cursor are untouched, and for a candidate that completes the prefix
    the shadow line and cursor are those of the acceptance steps performed
    on the copy [[]rune(string(line))] of the real line, at the cursor
    clamped to it. *)
Theorem refreshLine_accepts_unique_else_previews
    (ResetForce : Engine -> option Engine) (e : Engine) :
  noCompletions e = false ->
  (hasUniqueCandidate e = true ->
   forall cur,
     currentGroup e = Some cur -> completes e (gselected cur) ->
     keys e <> [] ->
     exists e1,
       acceptCandidate e = Some e1 /\
       refreshLine ResetForce e = ResetForce (ClearMenu true e1) /\
       (line (ClearMenu true e1), cursor (ClearMenu true e1)) =
         accept_steps (line e) (cursor e) (prefix e) (suffix e)
           (Value (gselected cur)) /\
       groups (ClearMenu true e1) = [] /\
       compLine (ClearMenu true e1) = compLine e /\
       compCursor (ClearMenu true e1) = compCursor e) /\
  (hasUniqueCandidate e = false ->
   refreshLine ResetForce e = insertCandidate e /\
   (forall e', refreshLine ResetForce e = Some e' ->
               line e' = line e /\ cursor e' = cursor e) /\
   (forall cur,
      currentGroup e = Some cur -> completes e (gselected cur) ->
      keys e <> [] ->
      let copy := runes_of_string (string_of_runes (line e)) in
      let shadow :=
        accept_steps copy (Cursor.Set_ copy (cursor e)) (prefix e)
          (suffix e) (Value (gselected cur)) in
      exists e',
        refreshLine ResetForce e = Some e' /\
        selected e' = gselected cur /\
        line e' = line e /\ cursor e' = cursor e /\
        compLine e' = Some (fst shadow) /\
        compCursor e' = Some (snd shadow))).
Proof.
  intros Hn. split.
  - intros Hu cur Hcur Hc Hk. unfold refreshLine.
    rewrite Hn, Hcur, Hu.
    rewrite (acceptCandidate_selected e cur Hcur Hc Hk).
    eexists. split; [reflexivity|]. split; [reflexivity|].
    cbn [ClearMenu set_groups line cursor groups compLine compCursor].
    unfold accept_steps. repeat split; reflexivity.
  - intros Hu.
    assert (Heq : refreshLine ResetForce e = insertCandidate e).
    { unfold refreshLine. rewrite Hn, Hu.
      destruct (currentGroup e) eqn:Hcur; [reflexivity|].
      unfold insertCandidate. rewrite Hcur. reflexivity. }
    split; [exact Heq|]. split.
    + intros e'. rewrite Heq. apply insertCandidate_keeps_real_line.
    + intros cur Hcur Hc Hk copy shadow. rewrite Heq.
      rewrite (insertCandidate_selected e cur Hcur Hc Hk).
      eexists. split; [reflexivity|].
      cbn [selected line cursor compLine compCursor].
      subst shadow copy. unfold accept_steps. cbn [fst snd].
      repeat split; reflexivity.
Qed.

Lemma refreshLine_accepts_unique_else_previews_witness :
  let lower := fun e => Some (set_autoForce false e) in
  (exists e1,
     acceptCandidate Scenario.path_engine = Some e1 /\
     refreshLine lower Scenario.path_engine = lower (ClearMenu true e1) /\
     line (ClearMenu true e1) = Scenario.bytes "cd /usr/local/" /\
     groups (ClearMenu true e1) = [] /\
     compLine (ClearMenu true e1) = None) /\
  (exists e',
     refreshLine lower Scenario.list_engine = Some e' /\
     line e' = Scenario.bytes "ls " /\
     compLine e' = Some (Scenario.bytes "ls foo")).
Proof.
  intros lower. split.
  - destruct (proj1 (refreshLine_accepts_unique_else_previews lower
                       Scenario.path_engine eq_refl) eq_refl
                Scenario.path_group eq_refl)
      as (e1 & Ha & Hr & Hl & Hg & Hs & _).
    + vm_compute. split; [reflexivity|]. congruence.
    + vm_compute. congruence.
    + exists e1. split; [exact Ha|]. split; [exact Hr|].
      split; [|split; [exact Hg|exact Hs]].
      vm_compute in Hl. vm_compute. congruence.
  - destruct (proj2 (proj2 (proj2 (refreshLine_accepts_unique_else_previews
                                     lower Scenario.list_engine eq_refl)
                              eq_refl))
                Scenario.list_group eq_refl)
      as (e' & Hr & _ & Hl & _ & Hs & _).
    + vm_compute. split; [reflexivity|]. congruence.
    + vm_compute. congruence.
    + exists e'. split; [exact Hr|]. split; [exact Hl|].
      rewrite Hs. reflexivity.
Defined.

End CompletionFacts.

(** ** The display engine *)

Module DisplayFacts.
Import Utf8 Display.

Section Collaborators.

Variable World : Type.
Variable completer_Line : World -> Line.t * Z.
Variable completer_IsInserting : World -> bool.
Variable completer_Autocomplete : World -> World.
Variable completer_Display : Z -> World -> World.
Variable completer_Coordinates : World -> Z.
Variable histories_Suggest : World -> Line.t -> Line.t.
Variable keys_GetCursorPos : World -> Z * Z.
Variable prompt_LastUsed : World -> Z.
Variable hint_Coordinates : World -> Z.
Variable opts_GetBool : World -> string -> bool.
Variable term_GetWidth : World -> Z.
Variable term_GetHeight : World -> Z.
Variable ui_Highlight : World -> list rune -> gostring.
Variable FgBlackBright Reset : gostring.

Local Abbreviation computeCoordinates :=
  (computeCoordinates World completer_Line completer_IsInserting
     histories_Suggest keys_GetCursorPos prompt_LastUsed opts_GetBool
     term_GetWidth).
Local Abbreviation displayLine :=
  (displayLine World opts_GetBool ui_Highlight FgBlackBright Reset).
Local Abbreviation displayHelpers :=
  (displayHelpers World completer_Autocomplete completer_Display
     completer_Coordinates hint_Coordinates term_GetWidth term_GetHeight).
Local Abbreviation LineStartToCursorPos :=
  (LineStartToCursorPos World term_GetWidth).
Local Abbreviation CursorToLineStart := (CursorToLineStart World).
Local Abbreviation CursorHintToLineStart := (CursorHintToLineStart World).
Local Abbreviation emit := (emit World).
Local Abbreviation Refresh :=
  (Refresh World completer_Line completer_IsInserting completer_Autocomplete
     completer_Display completer_Coordinates histories_Suggest
     keys_GetCursorPos prompt_LastUsed hint_Coordinates opts_GetBool
     term_GetWidth term_GetHeight ui_Highlight FgBlackBright Reset).

Lemma prints_trans (s1 s2 s3 : state World) (m1 m2 : list term_op) :
  prints s1 s2 m1 -> prints s2 s3 m2 -> prints s1 s3 (m1 ++ m2).
Proof.
  intros (Ho1 & Hg1) (Ho2 & Hg2). split.
  - rewrite Ho2, Ho1, app_assoc. reflexivity.
  - rewrite Hg2, Hg1. reflexivity.
Qed.

Lemma prints_emit (o : term_op) (s : state World) : prints s (emit o s) [o].
Proof. split; reflexivity. Qed.

Lemma prints_CursorToLineStart (s : state World) :
  prints s (CursorToLineStart s) (to_line_start (eng s)).
Proof.
  split; [|reflexivity]. unfold Display.CursorToLineStart, to_line_start.
  cbn [Display.emit out eng]. rewrite <- !app_assoc. reflexivity.
Qed.

Lemma prints_LineStartToCursorPos (s : state World) :
  exists more, prints s (LineStartToCursorPos s) more.
Proof.
  eexists. split; [|reflexivity]. unfold Display.LineStartToCursorPos.
  cbn [Display.emit out eng world]. rewrite <- !app_assoc. reflexivity.
Qed.

Lemma prints_CursorHintToLineStart (s : state World) :
  exists more, prints s (CursorHintToLineStart s) more.
Proof.
  eexists. split; [|reflexivity]. unfold Display.CursorHintToLineStart.
  unfold Display.CursorToLineStart.
  cbn [Display.emit out eng world]. rewrite <- !app_assoc. reflexivity.
Qed.

Lemma prints_displayHelpers (s : state World) :
  exists more, prints s (displayHelpers s) more.
Proof.
  eexists. split; [|reflexivity]. unfold Display.displayHelpers.
  cbn [Display.emit Display.set_world Display.set_eng out eng world].
  rewrite <- !app_assoc. reflexivity.
Qed.

(** [computeCoordinates] prints nothing and always sets the line. *)
Lemma computeCoordinates_out (s : state World) :
  out (computeCoordinates s) = out s /\
  exists l, line (eng (computeCoordinates s)) = Some l.
Proof.
  unfold Display.computeCoordinates.
  destruct (completer_Line (world s)) as [l c].
  destruct (keys_GetCursorPos (world s)) as [sc sr].
  destruct (coordinates _ _ c) as [cc cr].
  destruct (if opts_GetBool (world s) "history-autosuggest" then _ else _)
    as [lc lr].
  split; [reflexivity|]. exists l. reflexivity.
Qed.

(** What [computeCoordinates] computes depends on the engine and on the
    other components, not on what was printed. *)
Lemma computeCoordinates_eng (s s0 : state World) :
  eng s = eng s0 -> world s = world s0 ->
  eng (computeCoordinates s) = eng (computeCoordinates s0).
Proof.
  intros He Hw. unfold Display.computeCoordinates. rewrite He, Hw.
  destruct (completer_Line (world s0)) as [l c].
  destruct (keys_GetCursorPos (world s0)) as [sc sr].
  destruct (coordinates _ _ c) as [cc cr].
  destruct (if opts_GetBool (world s0) "history-autosuggest" then _ else _)
    as [lc lr].
  reflexivity.
Qed.

(** [displayLine] returns once the line is set. *)
Lemma prints_displayLine (s : state World) (l : Line.t) :
  line (eng s) = Some l ->
  exists s' more, displayLine s = Some s' /\ prints s s' more.
Proof.
  intros Hl. unfold Display.displayLine. rewrite Hl.
  cbn [mbind option_bind].
  destruct ((len l <? len (suggested (eng s))) &&
            opts_GetBool (world s) "history-autosuggest") eqn:Hc.
  - apply andb_true_iff in Hc as (Hlt & _). apply Z.ltb_lt in Hlt.
    rewrite CompletionFacts.go_slice_from_Some
      by (unfold Line.Len; pose proof (len_nonneg l); lia).
    cbn [mbind option_bind].
    destruct ((lineCol (eng s) =? 0) && (cursorCol (eng s) =? 0) &&
              (1 <? cursorRow (eng s)));
      eexists; eexists; (split; [reflexivity|]); (split; [|reflexivity]);
      cbn [Display.emit Display.set_eng out]; rewrite <- ?app_assoc;
      reflexivity.
  - cbn [mbind option_bind].
    destruct ((lineCol (eng s) =? 0) && (cursorCol (eng s) =? 0) &&
              (1 <? cursorRow (eng s)));
      eexists; eexists; (split; [reflexivity|]); (split; [|reflexivity]);
      cbn [Display.emit Display.set_eng out]; rewrite <- ?app_assoc;
      reflexivity.
Qed.

(** C8.  In every call of [Refresh], the move to the start of the input
    line is made with the positions [cursorCol], [cursorRow] and [startCols]
    retained from the previous repaint, before [computeCoordinates]
    overwrites them: what [Refresh] prints begins with the hiding of the
    cursor and the moves of [CursorToLineStart] for the positions held on
    entry, and the positions held on return are those that
    [computeCoordinates] computed. *)
Theorem Refresh_moves_with_previous_geometry (s : state World) :
  exists s' rest,
    Refresh s = Some s' /\
    out s' = out s ++ HideCursor :: to_line_start (eng s) ++ rest /\
    geometry (eng s') = geometry (eng (computeCoordinates s)).
Proof.
  unfold Display.Refresh. cbv zeta.
  set (s1 := CursorToLineStart (emit HideCursor s)).
  set (s2 := computeCoordinates s1).
  set (s2' := emit (MoveCursorBackwards (term_GetWidth (world s2))) s2).
  set (s3 := emit (MoveCursorForwards (startCols (eng s2'))) s2').
  destruct (computeCoordinates_out s1) as (Hout2 & l & Hl). fold s2 in Hout2, Hl.
  assert (Hl3 : line (eng s3) = Some l) by exact Hl.
  destruct (prints_displayLine s3 l Hl3) as (s4 & m4 & -> & H4).
  cbn [mbind option_bind].
  set (s5 := emit (RightPrint (lineCol (eng s4)) true) s4).
  destruct (prints_displayHelpers s5) as (m6 & H6).
  destruct (prints_CursorHintToLineStart (displayHelpers s5)) as (m7 & H7).
  destruct (prints_LineStartToCursorPos
              (CursorHintToLineStart (displayHelpers s5))) as (m8 & H8).
  pose proof (prints_trans _ _ _ _ _
               (prints_trans _ _ _ _ _
                  (prints_trans _ _ _ _ _
                     (prints_trans _ _ _ _ _
                        (prints_trans _ _ _ _ _ H4 (prints_emit _ s4)) H6)
                     H7) H8) (prints_emit ShowCursor _)) as (Ho & Hg).
  eexists. eexists. split; [reflexivity|]. split.
  - rewrite Ho. subst s3 s2'. cbn [Display.emit out]. rewrite Hout2.
    subst s1. cbn [Display.CursorToLineStart Display.emit out eng].
    unfold to_line_start. rewrite <- !app_assoc. cbn [app]. reflexivity.
  - rewrite Hg. subst s3 s2' s2. cbn [Display.emit eng].
    rewrite (computeCoordinates_eng s1 s); reflexivity.
Qed.

End Collaborators.

End DisplayFacts.

(** ** The completion engine: edge cases and compositions *)

Module CompletionEdges.
Import Utf8 Completion CompletionSpec CompletionFacts.

(** Whatever key called the command, [prepareSuffix] hands the selected
    candidate back whole (the empty string when there is no current group)
    and writes no field of the engine but the suffix matcher. *)
Theorem prepareSuffix_never_trims (e e' : Engine) (c : gostring) :
  prepareSuffix e = Some (e', c) ->
  c = match currentGroup e with
      | Some _ => Value (selected e)
      | None => []
      end /\
  set_sm (sm e) e' = e.
Proof.
  unfold prepareSuffix.
  destruct (currentGroup e) as [cur|].
  2:{ intros [= <- <-]. split; [reflexivity|]. destruct e; reflexivity. }
  destruct (if 0 <? len (Value (selected e))
            then rest ← go_slice_from (Value (selected e)) (len (prefix e));
                 Some (len rest <=? 1)
            else Some false) as [[|]|]; cbn [mbind option_bind];
    [intros [= <- <-]; split; [reflexivity|destruct e; reflexivity]|
    |discriminate].
  destruct (go_index (Value (selected e)) (len (Value (selected e)) - 1));
    cbn [mbind option_bind]; [|discriminate].
  destruct (go_index (keys e) 0); cbn [mbind option_bind]; [|discriminate].
  repeat match goal with |- context [if ?b then _ else _] => destruct b end;
    intros [= <- <-]; (split; [reflexivity|destruct e; reflexivity]).
Qed.

Lemma prepareSuffix_never_trims_witness :
  exists e', prepareSuffix Scenario.path_selected =
             Some (e', Scenario.bytes "local/") /\
             set_sm emptyMatcher e' = Scenario.path_selected.
Proof.
  eexists. split; [reflexivity|].
  exact (proj2 (prepareSuffix_never_trims Scenario.path_selected _ _ eq_refl)).
Defined.

Lemma prepareSuffix_empty (e : Engine) (cur : group) :
  currentGroup e = Some cur -> Value (selected e) = [] ->
  prepareSuffix e = None.
Proof.
  intros Hcur Hv. unfold prepareSuffix. rewrite Hcur, Hv. reflexivity.
Qed.

(** The empty candidate is not handled: when the current group selects a
    candidate of empty value, [acceptCandidate] panics (index out of range
    in [prepareSuffix]), and so does [insertCandidate] unless a non-empty
    prefix makes it return at its length guard. *)
Theorem empty_candidate_panics (e : Engine) (cur : group) :
  currentGroup e = Some cur -> Value (gselected cur) = [] ->
  acceptCandidate e = None /\
  (prefix e = [] -> insertCandidate e = None) /\
  (prefix e <> [] ->
   insertCandidate e = Some (set_selected (gselected cur) e)).
Proof.
  intros Hcur Hv.
  assert (Hp : prepareSuffix (set_selected (gselected cur) e) = None).
  { apply (prepareSuffix_empty _ cur); [exact Hcur|exact Hv]. }
  split; [|split].
  - rewrite (acceptCandidate_unfold e cur Hcur), Hp. reflexivity.
  - intros Hpre. rewrite (insertCandidate_unfold e cur Hcur), Hp;
      [reflexivity|]. rewrite Hpre, Hv. reflexivity.
  - intros Hpre. unfold insertCandidate. rewrite Hcur.
    change (Value (selected (set_selected (gselected cur) e)))
      with (Value (gselected cur)).
    change (prefix (set_selected (gselected cur) e)) with (prefix e).
    rewrite Hv. destruct (prefix e) as [|b p]; [congruence|].
    reflexivity.
Qed.

Lemma empty_candidate_panics_witness :
  let g := mkGroup [emptyCandidate] 0 emptyMatcher in
  let e := set_groups [g] (Some 0%nat) Scenario.list_engine in
  acceptCandidate e = None /\ insertCandidate e = None.
Proof.
  intros g e.
  destruct (empty_candidate_panics e g eq_refl eq_refl) as (Ha & Hi & _).
  split; [exact Ha|]. apply Hi. reflexivity.
Defined.

(** A candidate shorter than the prefix: [insertCandidate] returns at its
    guard, having only set the selection, while [acceptCandidate], which
    has no such guard, panics on the slice [comp[prefix:]]. *)
Theorem short_candidate_guarded_in_preview_only (e : Engine) (cur : group) :
  currentGroup e = Some cur ->
  0 < len (Value (gselected cur)) < len (prefix e) ->
  insertCandidate e = Some (set_selected (gselected cur) e) /\
  acceptCandidate e = None.
Proof.
  intros Hcur (Hc & Hp). split.
  - unfold insertCandidate. rewrite Hcur.
    change (Value (selected (set_selected (gselected cur) e)))
      with (Value (gselected cur)).
    change (prefix (set_selected (gselected cur) e)) with (prefix e).
    destruct (Z.ltb_spec (len (Value (gselected cur))) (len (prefix e)));
      [reflexivity|lia].
  - rewrite (acceptCandidate_unfold e cur Hcur). unfold prepareSuffix.
    rewrite currentGroup_set_selected, Hcur.
    change (Value (selected (set_selected (gselected cur) e)))
      with (Value (gselected cur)).
    change (prefix (set_selected (gselected cur) e)) with (prefix e).
    destruct (Z.ltb_spec 0 (len (Value (gselected cur)))); [|lia].
    unfold go_slice_from.
    destruct (Z.leb_spec (len (prefix e)) (len (Value (gselected cur))));
      [lia|]. rewrite andb_false_r. reflexivity.
Qed.

Lemma short_candidate_guarded_in_preview_only_witness :
  let e := set_prefix (Scenario.bytes "local/bin") Scenario.path_engine in
  insertCandidate e = Some (set_selected (Scenario.candidate "local/") e) /\
  acceptCandidate e = None.
Proof.
  intros e.
  apply (short_candidate_guarded_in_preview_only e Scenario.path_group).
  - reflexivity.
  - vm_compute. split; reflexivity.
Defined.

Lemma Insert_at_seam (pre post x : Line.t) :
  Line.Insert (pre ++ post) (len pre) x = pre ++ x ++ post.
Proof.
  unfold Line.Insert, Line.clamp.
  replace (Z.to_nat (Z.max 0 (Z.min (len pre) (len (pre ++ post)))))
    with (length pre)
    by (rewrite len_app; pose proof (len_nonneg post); unfold len; lia).
  rewrite take_app_length, drop_app_length. reflexivity.
Qed.

(** Cutting [n] runes at the seam of [pre] and [rest]. *)
Lemma Cut_at_seam (pre rest : Line.t) (n : Z) :
  0 <= n ->
  Line.Cut (pre ++ rest) (len pre) (len pre + n) =
  pre ++ drop (Z.to_nat n) rest.
Proof.
  intros Hn. unfold Line.Cut, Line.clamp. rewrite len_app.
  pose proof (len_nonneg pre) as Hp. pose proof (len_nonneg rest) as Hr.
  destruct (Z.ltb_spec (Z.max 0 (Z.min (len pre) (len pre + len rest)))
              (Z.max 0 (Z.min (len pre + n) (len pre + len rest))))
    as [Hlt|Hge].
  - replace (Z.to_nat (Z.max 0 (Z.min (len pre) (len pre + len rest))))
      with (length pre) by (unfold len in *; lia).
    rewrite take_app_length.
    destruct (Z.le_gt_cases n (len rest)) as [Hle|Hgt].
    + replace (Z.to_nat (Z.max 0 (Z.min (len pre + n) (len pre + len rest))))
        with (length pre + Z.to_nat n)%nat by (unfold len in *; lia).
      rewrite drop_app_add. reflexivity.
    + replace (Z.to_nat (Z.max 0 (Z.min (len pre + n) (len pre + len rest))))
        with (length pre + length rest)%nat by (unfold len in *; lia).
      rewrite drop_app_add, drop_all.
      rewrite drop_ge by (unfold len in *; lia). reflexivity.
  - assert (Hz : n = 0 \/ len rest = 0) by lia.
    destruct Hz as [->|Hz]; [reflexivity|].
    destruct rest; [|unfold len in Hz; simpl in Hz; lia].
    rewrite drop_nil. reflexivity.
Qed.

(** A string never decodes to more runes than it has bytes. *)
Lemma decode_from_length (s : gostring) (k : nat) :
  (length (decode_from k s) <= length s)%nat.
Proof.
  revert k. induction s as [|b t IH]; intros k; [simpl; lia|].
  destruct k as [|k].
  - cbn [decode_from]. destruct (decode_rune (b :: t)) as [r w].
    cbn [length]. specialize (IH (w - 1)%nat). lia.
  - cbn [decode_from length]. specialize (IH k). lia.
Qed.

Lemma runes_of_string_length (s : gostring) :
  len (runes_of_string s) <= len s.
Proof.
  unfold len, runes_of_string. pose proof (decode_from_length s 0). lia.
Qed.

(** When the line holds the suffix at the cursor, [acceptCandidate] puts
    the inserted portion of the candidate before it.  The suffix region is
    cut by the byte length of the suffix and restored by its runes: an ASCII
    suffix gives a pure insertion, while every multi-byte character of the
    suffix costs one rune of the text that follows it. *)
Theorem acceptCandidate_inserts_before_suffix (e : Engine) (cur : group)
    (pre post : Line.t) :
  let c := gselected cur in
  let ins := inserted_portion (prefix e) (Value c) in
  let suf := runes_of_string (suffix e) in
  currentGroup e = Some cur -> completes e c -> keys e <> [] ->
  line e = pre ++ suf ++ post -> cursor e = len pre ->
  exists e',
    acceptCandidate e = Some e' /\
    line e' = pre ++ ins ++ suf ++
              drop (Z.to_nat (len (suffix e) - len suf)) post /\
    cursor e' = len pre + len ins.
Proof.
  intros c ins suf Hcur Hc Hk Hline Hcursor.
  rewrite (acceptCandidate_selected e cur Hcur Hc Hk).
  eexists. split; [reflexivity|]. cbn [line cursor]. fold c ins suf.
  rewrite Hline, Hcursor. split; [|reflexivity].
  pose proof (runes_of_string_length (suffix e)) as Hle. fold suf in Hle.
  rewrite Cut_at_seam by apply len_nonneg.
  assert (Hdrop : drop (Z.to_nat (len (suffix e))) (suf ++ post) =
                  drop (Z.to_nat (len (suffix e) - len suf)) post).
  { replace (Z.to_nat (len (suffix e)))
      with (length suf + Z.to_nat (len (suffix e) - len suf))%nat
      by (unfold len in *; lia).
    apply drop_app_add. }
  rewrite Hdrop, Insert_at_seam.
  replace (len pre + len ins) with (len (pre ++ ins)) by apply len_app.
  rewrite app_assoc, Insert_at_seam, <- app_assoc. reflexivity.
Qed.

Lemma acceptCandidate_inserts_before_suffix_witness :
  let e := mkEngine (Scenario.bytes "cd /usr/loc tmp") 11 None None
             emptyCandidate (Scenario.bytes "loc") (Scenario.bytes " tmp") []
             emptyMatcher [9] [Scenario.path_group] (Some 0%nat) false in
  exists e', acceptCandidate e = Some e' /\
             line e' = Scenario.bytes "cd /usr/local/ tmp" /\
             cursor e' = 14.
Proof.
  intros e.
  destruct (acceptCandidate_inserts_before_suffix e Scenario.path_group
              (Scenario.bytes "cd /usr/loc") []) as (e' & Ha & Hl & Hc).
  - reflexivity.
  - vm_compute. split; [reflexivity|]. congruence.
  - vm_compute. congruence.
  - reflexivity.
  - reflexivity.
  - exists e'. split; [exact Ha|]. split; [exact Hl|exact Hc].
Defined.

(** [TrimSuffix] panics only past its first guard, with a matcher recorded
    for [cursor - 1], when there is no rune at [cursor - 1] or no calling
    key; with the cursor on the line and a calling key it always returns. *)
Theorem TrimSuffix_panics_only_off_the_line (e : Engine) :
  TrimSuffix e = None <->
  ~ nothing_to_trim e /\ sm_pos (sm e) = cursor e - 1 /\
  (~ 0 < cursor e <= len (line e) \/ keys e = []).
Proof.
  destruct (nothing_to_trim_dec e) as [Hg|Hg].
  { rewrite (TrimSuffix_guard e Hg). split; [discriminate|tauto]. }
  destruct (Z.eq_dec (sm_pos (sm e)) (cursor e - 1)) as [Hv|Ho].
  2:{ rewrite (TrimSuffix_orphan e Hg Ho). split; [discriminate|tauto]. }
  destruct (go_index (line e) (cursor e - 1)) as [suf|] eqn:Hsuf.
  - pose proof Hsuf as Hin. apply go_index_Some in Hin as (Hin & _).
    destruct (keys e) as [|key ks] eqn:Hk.
    + split; [intros _; tauto|]. intros _. unfold TrimSuffix.
      rewrite (TrimSuffix_past_guard e Hg), Hsuf, Hk.
      destruct (Z.eqb_spec (sm_pos (sm e)) (cursor e - 1)); [|contradiction].
      reflexivity.
    + rewrite (TrimSuffix_valid e suf key ks Hg Hv Hsuf Hk).
      split; [discriminate|]. intros (_ & _ & [H|H]); [lia|discriminate].
  - split.
    + intros _. split; [exact Hg|]. split; [exact Hv|]. left. intros Hin.
      destruct (lookup_lt_is_Some_2 (line e) (Z.to_nat (cursor e - 1)))
        as (x & Hx); [unfold len in Hin; lia|].
      assert (go_index (line e) (cursor e - 1) = Some x)
        by (apply go_index_Some; split; [lia|exact Hx]).
      congruence.
    + intros _. unfold TrimSuffix.
      rewrite (TrimSuffix_past_guard e Hg), Hsuf.
      destruct (Z.eqb_spec (sm_pos (sm e)) (cursor e - 1)); [|contradiction].
      reflexivity.
Qed.

(** Within the buffer invariant and with a calling key, [TrimSuffix]
    returns, keeps the invariant, and either leaves the line and the cursor
    as they are or removes exactly the rune before the cursor, moving the
    cursor one rune back. *)
Theorem TrimSuffix_removes_at_most_one_rune (e : Engine) :
  cursor_in_line e -> keys e <> [] ->
  exists e',
    TrimSuffix e = Some e' /\ cursor_in_line e' /\
    ((line e' = line e /\ cursor e' = cursor e) \/
     (line e' = Line.CutRune (line e) (cursor e - 1) /\
      len (line e') = len (line e) - 1 /\ cursor e' = cursor e - 1)).
Proof.
  intros Hin Hk. unfold cursor_in_line in *.
  destruct (nothing_to_trim_dec e) as [Hg|Hg].
  { exists e. split; [apply TrimSuffix_guard; exact Hg|]. auto. }
  destruct (Z.eq_dec (sm_pos (sm e)) (cursor e - 1)) as [Hv|Ho].
  2:{ exists (set_sm emptyMatcher e).
      split; [apply TrimSuffix_orphan; assumption|]. auto. }
  assert (Hpos : 0 < cursor e).
  { destruct (Z.eq_dec (cursor e) 0) as [H0|H0]; [|lia].
    exfalso. apply Hg. right. left. exact H0. }
  destruct (lookup_lt_is_Some_2 (line e) (Z.to_nat (cursor e - 1)))
    as (suf & Hsuf); [unfold len in Hin; lia|].
  assert (Hsuf' : go_index (line e) (cursor e - 1) = Some suf)
    by (apply go_index_Some; split; [lia|exact Hsuf]).
  destruct (keys e) as [|key ks] eqn:Hkeys; [congruence|].
  rewrite (TrimSuffix_valid e suf key ks Hg Hv Hsuf' Hkeys).
  assert (Hdec : Cursor.Dec (cursor e) = cursor e - 1).
  { unfold Cursor.Dec. destruct (Z.ltb_spec 0 (cursor e)); [reflexivity|lia]. }
  destruct ((suf =? 47) && negb (key =? Space) &&
            notMatcher key (sm_string (sm e))); [exists e; auto|].
  destruct (Matches (sm e) (encode_rune key) || IsSpace key);
    [|exists e; auto].
  eexists. split; [reflexivity|]. cbn [line cursor]. rewrite Hdec.
  pose proof (CutRune_length (line e) (cursor e - 1)) as Hlen.
  split; [rewrite Hlen; lia|]. right.
  split; [reflexivity|]. split; [apply Hlen; lia|reflexivity].
Qed.

Lemma TrimSuffix_removes_at_most_one_rune_witness :
  exists e', TrimSuffix (Scenario.accepted 47) = Some e' /\
             cursor_in_line e'.
Proof.
  destruct (TrimSuffix_removes_at_most_one_rune (Scenario.accepted 47))
    as (e' & H & Hin & _).
  - vm_compute. split; congruence.
  - discriminate.
  - exists e'. split; [exact H|exact Hin].
Defined.

Import CompletionEdgeSpec.

(** The line after the three buffer operations of an acceptance, for a
    cursor on the line. *)
Lemma accepted_line_at_seam (pre rest ins rs : Line.t) (n : Z) :
  0 <= n ->
  Line.Insert (Line.Insert (Line.Cut (pre ++ rest) (len pre) (len pre + n))
                 (len pre) ins) (len pre + len ins) rs =
  pre ++ ins ++ rs ++ drop (Z.to_nat n) rest.
Proof.
  intros Hn. rewrite Cut_at_seam by exact Hn. rewrite Insert_at_seam.
  replace (len pre + len ins) with (len (pre ++ ins)) by apply len_app.
  rewrite app_assoc, Insert_at_seam, <- app_assoc. reflexivity.
Qed.

Lemma accepted_line_closed_form (l ins rs : Line.t) (cur n : Z) :
  0 <= cur <= len l -> 0 <= n ->
  Line.Insert (Line.Insert (Line.Cut l cur (cur + n)) cur ins)
    (cur + len ins) rs =
  take (Z.to_nat cur) l ++ ins ++ rs ++ drop (Z.to_nat (cur + n)) l.
Proof.
  intros Hcur Hn.
  assert (Hpre : len (take (Z.to_nat cur) l) = cur).
  { unfold len in *. rewrite length_take. lia. }
  pose proof (accepted_line_at_seam (take (Z.to_nat cur) l)
                (drop (Z.to_nat cur) l) ins rs n Hn) as H.
  rewrite take_drop, Hpre, drop_drop in H.
  replace (Z.to_nat cur + Z.to_nat n)%nat with (Z.to_nat (cur + n)) in H
    by lia.
  exact H.
Qed.

Lemma CutRune_at_seam (pre post : Line.t) (x : rune) :
  Line.CutRune (pre ++ x :: post) (len pre) = pre ++ post.
Proof.
  unfold Line.CutRune. rewrite len_app.
  pose proof (len_nonneg pre). pose proof (len_nonneg post).
  destruct (Z.leb_spec 0 (len pre)); [|lia].
  destruct (Z.ltb_spec (len pre) (len pre + len (x :: post)));
    [|unfold len in *; simpl in *; lia].
  cbn [andb]. rewrite Cut_at_seam by lia. reflexivity.
Qed.

(** Acceptance followed by a separator.  For a candidate whose inserted
    portion has as many runes as bytes and more than one of them, accepted
    at a cursor on the line: when the next key is a member of the group's
    separator set or the space character, [TrimSuffix] removes the last rune
    that the acceptance inserted and nothing else. *)
Theorem separator_after_acceptance_trims_last_inserted (e : Engine)
    (cur : group) (key : rune) (body : list rune) (last : rune) :
  let c := gselected cur in
  let n := len (Value c) - len (prefix e) in
  let suf := runes_of_string (suffix e) in
  currentGroup e = Some cur -> completes e c -> keys e <> [] ->
  cursor_in_line e ->
  inserted_portion (prefix e) (Value c) = body ++ [last] ->
  1 < n -> len (body ++ [last]) = n ->
  member key (sm_string (noSpace cur)) \/ key = Space ->
  exists e1 e2,
    acceptCandidate e = Some e1 /\
    line e1 = take (Z.to_nat (cursor e)) (line e) ++ body ++ [last] ++ suf ++
              drop (Z.to_nat (cursor e + len (suffix e))) (line e) /\
    TrimSuffix (next_key key e1) = Some e2 /\
    line e2 = take (Z.to_nat (cursor e)) (line e) ++ body ++ suf ++
              drop (Z.to_nat (cursor e + len (suffix e))) (line e) /\
    cursor e2 = cursor e1 - 1.
Proof.
  intros c n suf Hcur Hc Hk Hin Hins Hn Hlen Hkey.
  unfold cursor_in_line in Hin.
  pose proof (acceptCandidate_selected e cur Hcur Hc Hk) as Ha.
  cbv zeta in Ha. fold c in Ha. rewrite Hins in Ha. fold suf in Ha.
  rewrite accepted_line_closed_form in Ha by (auto using len_nonneg).
  destruct (Z.leb_spec (len (Value c) - len (prefix e)) 1) as [H1|_];
    [unfold n in Hn; lia|].
  set (pre := take (Z.to_nat (cursor e)) (line e)) in *.
  set (post := drop (Z.to_nat (cursor e + len (suffix e))) (line e)) in *.
  set (e1 := mkEngine (pre ++ (body ++ [last]) ++ suf ++ post)
               (cursor e + len (body ++ [last])) (compLine e) (compCursor e)
               c [] [] [] (recorded e cur (Value c)) (keys e) (groups e)
               (current e) (autoForce e)) in *.
  assert (Hpre : len pre = cursor e).
  { unfold pre, len in *. rewrite length_take. lia. }
  assert (Hline1 : line e1 = (pre ++ body) ++ last :: suf ++ post).
  { cbn [e1 line]. rewrite <- !app_assoc. reflexivity. }
  assert (Hcur1 : cursor e1 - 1 = len (pre ++ body)).
  { cbn [e1 cursor]. rewrite !len_app, Hpre. unfold len. simpl. lia. }
  set (e2 := next_key key e1).
  assert (Hg : ~ nothing_to_trim e2).
  { intros [H|[H|H]].
    - cbn [e2 next_key set_keys set_selected line] in H. rewrite Hline1 in H.
      destruct (pre ++ body); discriminate.
    - cbn [e2 next_key set_keys set_selected cursor] in H.
      pose proof (len_nonneg (pre ++ body)). lia.
    - apply H. reflexivity. }
  assert (Hv : sm_pos (sm e2) = cursor e2 - 1).
  { cbn [e2 next_key set_keys set_selected cursor sm e1 recorded sm_pos].
    rewrite Hlen. unfold n. lia. }
  assert (Hsuf : go_index (line e2) (cursor e2 - 1) = Some last).
  { change (line e2) with (line e1). change (cursor e2) with (cursor e1).
    rewrite Hcur1, Hline1. apply go_index_nat.
    apply list_lookup_middle. reflexivity. }
  pose proof (TrimSuffix_valid e2 last key [] Hg Hv Hsuf eq_refl) as Ht.
  exists e1, (mkEngine (Line.CutRune (line e2) (Cursor.Dec (cursor e2)))
                (Cursor.Dec (cursor e2)) (compLine e2) (compCursor e2)
                (selected e2) (prefix e2) (suffix e2) (inserted e2) (sm e2)
                (keys e2) (groups e2) (current e2) (autoForce e2)).
  split; [exact Ha|]. split; [cbn [e1 line]; rewrite <- !app_assoc; reflexivity|].
  assert (Hspecial : (last =? 47) && negb (key =? Space) &&
                     notMatcher key (sm_string (sm e2)) = false).
  { destruct Hkey as [Hm | ->].
    - apply notMatcher_false in Hm.
      change (sm_string (sm e2)) with (sm_string (noSpace cur)).
      rewrite Hm. apply andb_false_r.
    - rewrite Z.eqb_refl. cbn [negb]. rewrite andb_false_r. reflexivity. }
  assert (Hcut : Matches (sm e2) (encode_rune key) || IsSpace key = true).
  { destruct Hkey as [Hm | ->].
    - rewrite (Matches_member (sm e2) key); [reflexivity|exact Hm].
    - apply orb_true_r. }
  rewrite Hspecial, Hcut in Ht. split; [exact Ht|].
  assert (Hdec : Cursor.Dec (cursor e2) = cursor e1 - 1).
  { unfold Cursor.Dec. change (cursor e2) with (cursor e1).
    destruct (Z.ltb_spec 0 (cursor e1)); [reflexivity|].
    pose proof (len_nonneg (pre ++ body)). lia. }
  cbn [line cursor]. rewrite Hdec. split; [|reflexivity].
  change (line e2) with (line e1). rewrite Hcur1, Hline1, CutRune_at_seam.
  rewrite <- app_assoc. reflexivity.
Qed.

Lemma separator_after_acceptance_trims_last_inserted_witness :
  exists e1 e2,
    acceptCandidate Scenario.path_engine = Some e1 /\
    line e1 = Scenario.bytes "cd /usr/local/" /\
    TrimSuffix (next_key 47 e1) = Some e2 /\
    line e2 = Scenario.bytes "cd /usr/local" /\ cursor e2 = cursor e1 - 1.
Proof.
  destruct (separator_after_acceptance_trims_last_inserted
              Scenario.path_engine Scenario.path_group 47 [97; 108] 47)
    as (e1 & e2 & H1 & H2 & H3 & H4 & H5).
  - reflexivity.
  - vm_compute. split; [reflexivity|]. congruence.
  - discriminate.
  - vm_compute. split; congruence.
  - reflexivity.
  - reflexivity.
  - reflexivity.
  - left. vm_compute. left. reflexivity.
  - exists e1, e2. split; [exact H1|]. split; [exact H2|].
    split; [exact H3|]. split; [exact H4|exact H5].
Defined.

(** The matcher position is computed from byte lengths and the cursor moves
    by runes.  When the inserted portion of the accepted candidate has fewer
    runes than bytes (it holds a multi-byte character), the matcher is
    recorded beyond [cursor - 1]: whatever key comes next, [TrimSuffix]
    deletes nothing. *)
Theorem multibyte_candidate_is_never_trimmed (e : Engine) (cur : group)
    (key : rune) :
  let c := gselected cur in
  let n := len (Value c) - len (prefix e) in
  currentGroup e = Some cur -> completes e c -> keys e <> [] ->
  1 < n -> len (inserted_portion (prefix e) (Value c)) < n ->
  exists e1,
    acceptCandidate e = Some e1 /\
    sm_pos (sm e1) <> cursor e1 - 1 /\
    keeps_line (next_key key e1).
Proof.
  intros c n Hcur Hc Hk Hn Hlt.
  rewrite (acceptCandidate_selected e cur Hcur Hc Hk). fold c n.
  destruct (Z.leb_spec n 1) as [H1|_]; [lia|].
  eexists. split; [reflexivity|].
  match goal with |- sm_pos (sm ?x) <> _ /\ _ => set (e1 := x) end.
  assert (Ho : sm_pos (sm e1) <> cursor e1 - 1).
  { cbn [e1 sm cursor recorded sm_pos]. fold c. unfold n in Hlt. lia. }
  split; [exact Ho|]. unfold keeps_line.
  destruct (nothing_to_trim_dec (next_key key e1)) as [Hg|Hg].
  - exists (next_key key e1). split; [apply TrimSuffix_guard; exact Hg|].
    auto.
  - exists (set_sm emptyMatcher (next_key key e1)).
    split; [apply TrimSuffix_orphan; [exact Hg|exact Ho]|]. auto.
Qed.

Lemma multibyte_candidate_is_never_trimmed_witness :
  let g := mkGroup [mkCandidate [99; 97; 102; 195; 169; 47] [] []] 0
             (mkSuffixMatcher [47] 0) in
  let e := mkEngine (Scenario.bytes "cd ") 3 None None emptyCandidate [] []
             [] emptyMatcher [9] [g] (Some 0%nat) false in
  exists e1, acceptCandidate e = Some e1 /\
             line e1 = [99; 100; 32; 99; 97; 102; 233; 47] /\
             keeps_line (next_key 47 e1).
Proof.
  intros g e.
  destruct (multibyte_candidate_is_never_trimmed e g 47)
    as (e1 & H1 & _ & H3).
  - reflexivity.
  - vm_compute. split; [reflexivity|]. congruence.
  - discriminate.
  - reflexivity.
  - reflexivity.
  - exists e1. split; [exact H1|]. split; [|exact H3].
    vm_compute in H1. injection H1 as <-. reflexivity.
Defined.

(** [insertCandidate] is a preview: when it returns, the real line, the
    real cursor, the prefix, the suffix, the calling keys and the groups
    are as they were. *)
Theorem insertCandidate_writes_only_the_preview (e e' : Engine) :
  insertCandidate e = Some e' ->
  line e' = line e /\ cursor e' = cursor e /\
  prefix e' = prefix e /\ suffix e' = suffix e /\
  keys e' = keys e /\ groups e' = groups e /\ current e' = current e.
Proof.
  unfold insertCandidate.
  destruct (currentGroup e) as [grp|]; [|intros [= <-]; repeat split].
  destruct (len (Value (selected (set_selected (gselected grp) e))) <?
            len (prefix (set_selected (gselected grp) e)));
    [intros [= <-]; repeat split|].
  destruct (prepareSuffix (set_selected (gselected grp) e))
    as [[e1 c]|] eqn:Hp; cbn [mbind option_bind]; [|discriminate].
  destruct (go_slice_from c (len (prefix e1))); cbn [mbind option_bind];
    [|discriminate].
  intros [= <-].
  destruct (prepareSuffix_frame _ _ _ Hp) as [->|(m & ->)]; repeat split.
Qed.

Lemma insertCandidate_writes_only_the_preview_witness :
  exists e', insertCandidate Scenario.list_engine = Some e' /\
             compLine e' = Some (Scenario.bytes "ls foo") /\
             line e' = Scenario.bytes "ls ".
Proof.
  eexists. split; [reflexivity|]. split; [reflexivity|].
  exact (proj1 (insertCandidate_writes_only_the_preview
                  Scenario.list_engine _ eq_refl)).
Defined.

(** A second preview replaces the first.  When the selection moves to
    another candidate while a candidate is previewed, [insertCandidate]
    builds the shadow line from the real line again: the result is the one
    a first preview of the new candidate would give, and the real line and
    cursor are still untouched. *)
Theorem preview_is_rebuilt_from_the_real_line (e : Engine) (g g' : group)
    (gs' : list group) (cur' : option nat) :
  currentGroup e = Some g -> completes e (gselected g) -> keys e <> [] ->
  currentGroup (set_groups gs' cur' e) = Some g' ->
  completes e (gselected g') ->
  exists e1 e2 e2',
    insertCandidate e = Some e1 /\
    insertCandidate (set_groups gs' cur' e1) = Some e2 /\
    insertCandidate (set_groups gs' cur' e) = Some e2' /\
    compLine e2 = compLine e2' /\ compCursor e2 = compCursor e2' /\
    line e2 = line e /\ cursor e2 = cursor e.
Proof.
  intros Hcur Hc Hk Hcur' Hc'.
  pose proof (insertCandidate_selected e g Hcur Hc Hk) as H1.
  pose proof (insertCandidate_selected (set_groups gs' cur' e) g' Hcur' Hc'
                Hk) as H3.
  cbv zeta in H1, H3.
  match type of H1 with
  | _ = Some ?x =>
    pose proof (insertCandidate_selected (set_groups gs' cur' x) g' Hcur' Hc'
                  Hk) as H2;
    cbv zeta in H2; exists x
  end.
  match type of H2 with _ = Some ?x => exists x end.
  match type of H3 with _ = Some ?x => exists x end.
  split; [exact H1|]. split; [exact H2|]. split; [exact H3|].
  repeat split; reflexivity.
Qed.

Lemma preview_is_rebuilt_from_the_real_line_witness :
  let moved := mkGroup (values Scenario.list_group) 1 emptyMatcher in
  exists e1 e2,
    insertCandidate Scenario.list_engine = Some e1 /\
    compLine e1 = Some (Scenario.bytes "ls foo") /\
    insertCandidate (set_groups [moved] (Some 0%nat) e1) = Some e2 /\
    compLine e2 = Some (Scenario.bytes "ls bar") /\
    line e2 = Scenario.bytes "ls ".
Proof.
  intros moved.
  destruct (preview_is_rebuilt_from_the_real_line Scenario.list_engine
              Scenario.list_group moved [moved] (Some 0%nat))
    as (e1 & e2 & e2' & H1 & H2 & H3 & H4 & _ & H6 & _).
  - reflexivity.
  - vm_compute. split; [reflexivity|]. congruence.
  - discriminate.
  - reflexivity.
  - vm_compute. split; [reflexivity|]. congruence.
  - exists e1, e2. split; [exact H1|].
    vm_compute in H1. injection H1 as <-. split; [reflexivity|].
    split; [exact H2|]. split; [|exact H6].
    rewrite H4. vm_compute in H3. injection H3 as <-. reflexivity.
Defined.

Import Utf8EdgeSpec.

Lemma encode_rune_sanitise (r : rune) :
  encode_rune (sanitise r) = encode_rune r.
Proof.
  unfold sanitise. destruct (valid_rune r) eqn:Hv; [reflexivity|].
  assert (Hr : ~ (0 <= r < 0xD800 \/ 0xE000 <= r <= 0x10FFFF)).
  { rewrite <- Utf8Facts.valid_rune_range. congruence. }
  unfold encode_rune at 2. rewrite Hv. cbn [negb].
  destruct (Z.leb_spec 0 r); cbn [andb]; [|reflexivity].
  destruct (Z.leb_spec r 0x7F); [lia|].
  destruct (Z.leb_spec r 0x7FF); [lia|]. reflexivity.
Qed.

Lemma valid_rune_sanitise (r : rune) : valid_rune (sanitise r) = true.
Proof.
  unfold sanitise. destruct (valid_rune r) eqn:Hv; [exact Hv|reflexivity].
Qed.

(** [[]rune(string(l))]: the scalar values of [l] are kept and every other
    rune is replaced by U+FFFD. *)
Lemma runes_of_string_sanitises (l : list rune) :
  runes_of_string (string_of_runes l) = map sanitise l.
Proof.
  unfold runes_of_string, string_of_runes.
  induction l as [|r l IH]; [reflexivity|].
  cbn [map concat]. rewrite <- encode_rune_sanitise.
  rewrite Utf8Facts.decode_encode_rune by apply valid_rune_sanitise.
  rewrite IH. reflexivity.
Qed.

(** The shadow line is built on a copy of the real line made through a
    string: [insertCandidate] gives the shadow the content that the
    acceptance steps give the real line with every rune that is no Unicode
    scalar value replaced by U+FFFD. *)
Theorem shadow_line_is_a_sanitised_copy (e : Engine) (grp : group) :
  let c := gselected grp in
  currentGroup e = Some grp -> completes e c -> keys e <> [] ->
  cursor_in_line e ->
  exists e1,
    insertCandidate e = Some e1 /\
    compLine e1 =
      Some (fst (accept_steps (map sanitise (line e)) (cursor e) (prefix e)
                   (suffix e) (Value c))) /\
    compCursor e1 =
      Some (snd (accept_steps (map sanitise (line e)) (cursor e) (prefix e)
                   (suffix e) (Value c))).
Proof.
  intros c Hcur Hc Hk Hin.
  rewrite (insertCandidate_selected e grp Hcur Hc Hk).
  eexists. split; [reflexivity|]. cbn [compLine compCursor].
  rewrite runes_of_string_sanitises. unfold Cursor.Set_.
  rewrite clamp_in_line
    by (unfold cursor_in_line, len in *; rewrite length_map; exact Hin).
  unfold accept_steps. cbn [fst snd]. split; reflexivity.
Qed.

Lemma shadow_line_is_a_sanitised_copy_witness :
  let e := set_line [99; 100; 32; 0xD800] (set_prefix []
             (set_cursor 4 Scenario.path_engine)) in
  exists e1, insertCandidate e = Some e1 /\
             compLine e1 =
               Some ([99; 100; 32; 0xFFFD] ++ Scenario.bytes "local/").
Proof.
  intros e.
  destruct (shadow_line_is_a_sanitised_copy e Scenario.path_group)
    as (e1 & H1 & H2 & _).
  - reflexivity.
  - vm_compute. split; [reflexivity|]. congruence.
  - discriminate.
  - vm_compute. split; congruence.
  - exists e1. split; [exact H1|]. rewrite H2. reflexivity.
Defined.

End CompletionEdges.

(** ** The tokenisers: segments and the place of the cursor *)

Module TokeniseEdges.
Import Utf8 Tokenise TokeniseSpec TokeniseEdgeSpec TokeniseFacts.

Lemma shape_add_to_last (k : nat) (sp : list gostring) (s : gostring)
    (init : list gostring) (x : gostring) :
  sp = init ++ [x] ->
  exists sp', add_to_last sp s = Some sp' /\ shape k sp sp' s.
Proof.
  intros ->. exists (init ++ [x ++ s]). split; [apply add_to_last_snoc|].
  exists init, x. auto.
Qed.

Lemma shape_append_empty (k : nat) (sp : list gostring) (s : gostring)
    (init : list gostring) (x : gostring) :
  sp = init ++ [x] -> (0 < k)%nat ->
  exists sp', add_to_last (append_empty sp) s = Some sp' /\ shape k sp sp' s.
Proof.
  intros -> Hk. unfold append_empty. exists (init ++ [x; s]). split.
  - rewrite (add_to_last_snoc (init ++ [x]) [] s), <- app_assoc. reflexivity.
  - exists init, x. auto.
Qed.

(** [line[i-1]] in the guard [i > 0 && ...], for the index of a rune. *)
Lemma previous_rune_eq {B} (line : list rune) (k : nat) (r : rune)
    (f : rune -> B) (d : B) :
  line !! k = Some r ->
  (if 0 <? Z.of_nat k then p ← go_index line (Z.of_nat k - 1); Some (f p)
   else Some d) =
  Some (match k with
        | O => d
        | S j => match line !! j with Some p => f p | None => d end
        end).
Proof.
  intros Hr. destruct k as [|j]; [reflexivity|].
  destruct (Z.ltb_spec 0 (Z.of_nat (S j))); [|lia].
  destruct (line !! j) as [p|] eqn:Hp.
  - replace (Z.of_nat (S j) - 1) with (Z.of_nat j) by lia.
    rewrite (go_index_nat _ _ _ Hp). reflexivity.
  - apply lookup_ge_None in Hp. apply lookup_lt_Some in Hr. lia.
Qed.

Lemma open_after_first (line : list rune) (k : nat) (r : rune)
    (f : rune -> bool) :
  line !! k = Some r ->
  exists o : bool,
    (if 0 <? Z.of_nat k then p ← go_index line (Z.of_nat k - 1); Some (f p)
     else Some false) = Some o /\ (o = true -> (0 < k)%nat).
Proof.
  intros Hr. rewrite (previous_rune_eq line k r f false Hr).
  eexists. split; [reflexivity|]. destruct k; [discriminate|lia].
Qed.

Lemma located_init (line : list rune) (linePos : Z) :
  located line linePos 0 (Vars [[]] false 0 0).
Proof.
  exists [], []. split; [reflexivity|]. split; [reflexivity|].
  split; [constructor|]. split; [reflexivity|]. split; [reflexivity|].
  destruct (decide (0 <= linePos < Z.of_nat 0)); [lia|]. split; reflexivity.
Qed.

Lemma offset_last (init : list gostring) (x : gostring) :
  offset (init ++ [x]) (len (init ++ [x]) - 1) (len x) =
  len (concat (init ++ [x])).
Proof.
  unfold offset.
  replace (Z.to_nat (len (init ++ [x]) - 1)) with (length init)
    by (rewrite len_app; unfold len; simpl; lia).
  rewrite take_app_length, concat_app, len_app. simpl.
  rewrite app_nil_r. reflexivity.
Qed.

Lemma go_index_last_snoc {A} (init : list A) (x : A) :
  go_index (init ++ [x]) (len (init ++ [x]) - 1) = Some x.
Proof.
  replace (len (init ++ [x]) - 1) with (Z.of_nat (length init))
    by (rewrite len_app; unfold len; simpl; lia).
  apply go_index_nat, list_lookup_middle. reflexivity.
Qed.

(** One iteration keeps the invariant. *)
Lemma located_step (line : list rune) (linePos : Z) (k : nat) (r : rune)
    (v : vars) (sp' : list gostring) (b : bool) :
  line !! k = Some r -> located line linePos k v ->
  shape k (split v) sp' (encode_rune r) ->
  exists v', mark linePos (Z.of_nat k) (Vars sp' b (index v) (pos v)) = Some v'
             /\ located line linePos (S k) v'.
Proof.
  intros Hr (init & x & Hsp & Hcat & Hall & Hx & Hpunc & Hloc)
    (init0 & x0 & Hsp0 & Hsh).
  rewrite Hsp in Hsp0. apply app_inj_tail in Hsp0 as (<- & <-).
  pose proof (encode_rune_nonempty r) as Hs.
  assert (Hnew : exists init' x',
            sp' = init' ++ [x'] /\ Forall (fun seg => seg <> []) init' /\
            x' <> [] /\ len (encode_rune r) <= len x' /\
            concat sp' = concat (split v) ++ encode_rune r /\
            (length init <= length init')%nat /\
            forall i, (i <= length init)%nat -> take i sp' = take i init).
  { destruct Hsh as [->|(Hk & ->)].
    - exists init, (x ++ encode_rune r). split; [reflexivity|].
      split; [exact Hall|]. split.
      { intros H. apply (f_equal len) in H. rewrite len_app in H.
        pose proof (len_nonneg x). unfold len in H at 3. simpl in H. lia. }
      split; [rewrite len_app; pose proof (len_nonneg x); lia|]. split.
      { rewrite Hsp, !concat_app. simpl. rewrite !app_nil_r, app_assoc.
        reflexivity. }
      split; [lia|].
      intros i Hi. apply take_app_le. exact Hi.
    - exists (init ++ [x]), (encode_rune r).
      split; [rewrite <- app_assoc; reflexivity|]. split.
      { apply Forall_app. split; [exact Hall|]. constructor; [|constructor].
        intros H. specialize (Hx H). lia. }
      split.
      { intros H. rewrite H in Hs. unfold len in Hs. simpl in Hs. lia. }
      split; [lia|]. split.
      { rewrite Hsp, !concat_app. simpl. rewrite !app_nil_r, <- app_assoc.
        reflexivity. }
      split; [rewrite length_app; lia|].
      intros i Hi. apply take_app_le. exact Hi. }
  destruct Hnew
    as (init' & x' & -> & Hall' & Hx' & Hlen' & Hcat' & Hlo & Htake).
  assert (Hcat1 : concat (init' ++ [x']) = string_of_runes (take (S k) line)).
  { rewrite (take_S_r _ _ _ Hr), string_of_runes_snoc, Hcat', Hcat.
    reflexivity. }
  unfold mark. cbn [split punc index pos].
  destruct (Z.eqb_spec (Z.of_nat k) linePos) as [Heq|Hne].
  - rewrite go_index_last_snoc. cbn [mbind option_bind].
    eexists. split; [reflexivity|].
    exists init', x'. cbn [split punc index pos].
    split; [reflexivity|]. split; [exact Hcat1|]. split; [exact Hall'|].
    split; [intros H; contradiction|]. split; [discriminate|].
    destruct (decide (0 <= linePos < Z.of_nat (S k))); [|lia].
    split; [rewrite len_app; unfold len; simpl; lia|].
    replace (len x' - 1) with (len x' + -1) by lia.
    unfold offset. rewrite Z.add_assoc.
    fold (offset (init' ++ [x']) (len (init' ++ [x']) - 1) (len x')).
    rewrite offset_last, Hcat1.
    replace (Z.to_nat linePos + 1)%nat with (S k) by lia. lia.
  - eexists. split; [reflexivity|].
    exists init', x'. cbn [split punc index pos].
    split; [reflexivity|]. split; [exact Hcat1|]. split; [exact Hall'|].
    split; [intros H; contradiction|]. split; [discriminate|].
    destruct (decide (0 <= linePos < Z.of_nat k)) as [Hin|Hout].
    + destruct (decide (0 <= linePos < Z.of_nat (S k))); [|lia].
      destruct Hloc as (Hidx & Hoff). rewrite Hsp in Hidx, Hoff.
      rewrite len_app in Hidx. unfold len in Hidx at 2. simpl in Hidx.
      split; [rewrite len_app; unfold len in *; simpl; lia|].
      unfold offset in *.
      rewrite Htake by (unfold len in Hidx; lia).
      rewrite take_app_le in Hoff by (unfold len in Hidx; lia).
      exact Hoff.
    + destruct (decide (0 <= linePos < Z.of_nat (S k))); [lia|]. exact Hloc.
Qed.

Lemma tokeniseLine_body_located (line : list rune) (linePos : Z) (k : nat)
    (r : rune) (v : vars) :
  line !! k = Some r -> located line linePos k v ->
  exists v', tokeniseLine_body line linePos (Z.of_nat k) r v = Some v' /\
             located line linePos (S k) v'.
Proof.
  intros Hr Hloc. pose proof Hloc as (init & x & Hsp & _ & _ & _ & Hpunc & _).
  unfold tokeniseLine_body.
  destruct (isPunctuation r); [|destruct (isBlank r)].
  - destruct (open_after_first line k r (fun p => negb (p =? r)) Hr)
      as (o & -> & Ho).
    cbn [mbind option_bind]. destruct o.
    + destruct (shape_append_empty k _ (encode_rune r) _ _ Hsp (Ho eq_refl))
        as (sp' & -> & Hsh).
      cbn [mbind option_bind]. eapply located_step; eassumption.
    + destruct (shape_add_to_last k _ (encode_rune r) _ _ Hsp)
        as (sp' & -> & Hsh).
      cbn [mbind option_bind]. eapply located_step; eassumption.
  - destruct (shape_add_to_last k _ (encode_rune r) _ _ Hsp)
      as (sp' & -> & Hsh).
    cbn [mbind option_bind]. eapply located_step; eassumption.
  - destruct (punc v) eqn:Hp.
    + assert (Hk : (0 < k)%nat).
      { destruct k; [|lia]. specialize (Hpunc eq_refl). congruence. }
      destruct (shape_append_empty k _ (encode_rune r) _ _ Hsp Hk)
        as (sp' & -> & Hsh).
      cbn [mbind option_bind]. eapply located_step; eassumption.
    + destruct (shape_add_to_last k _ (encode_rune r) _ _ Hsp)
        as (sp' & -> & Hsh).
      cbn [mbind option_bind]. eapply located_step; eassumption.
Qed.

Lemma tokeniseSplitSpaces_body_located (line : list rune) (linePos : Z)
    (k : nat) (r : rune) (v : vars) :
  line !! k = Some r -> located line linePos k v ->
  exists v', tokeniseSplitSpaces_body line linePos (Z.of_nat k) r v = Some v'
             /\ located line linePos (S k) v'.
Proof.
  intros Hr Hloc. pose proof Hloc as (init & x & Hsp & _).
  unfold tokeniseSplitSpaces_body.
  destruct (isBlank r).
  - destruct (shape_add_to_last k _ (encode_rune r) _ _ Hsp)
      as (sp' & -> & Hsh).
    cbn [mbind option_bind]. eapply located_step; eassumption.
  - destruct (open_after_first line k r isBlank Hr) as (o & -> & Ho).
    cbn [mbind option_bind]. destruct o.
    + destruct (shape_append_empty k _ (encode_rune r) _ _ Hsp (Ho eq_refl))
        as (sp' & -> & Hsh).
      cbn [mbind option_bind]. eapply located_step; eassumption.
    + destruct (shape_add_to_last k _ (encode_rune r) _ _ Hsp)
        as (sp' & -> & Hsh).
      cbn [mbind option_bind]. eapply located_step; eassumption.
Qed.

(** What the invariant gives for the result of a tokeniser. *)
Lemma located_result (line : list rune) (linePos : Z) (v : vars) :
  line <> [] -> located line linePos (length line) v ->
  exists split' index' pos',
    (v' ← adjust line linePos v; Some (split v', index v', pos v')) =
      Some (split', index', pos') /\
    Forall (fun seg => seg <> []) split' /\
    (0 <= linePos <= len line ->
     offset split' index' pos' =
     if linePos <? len line
     then len (string_of_runes (take (Z.to_nat linePos + 1) line)) - 1
     else len (string_of_runes line)).
Proof.
  intros Hne (init & x & Hsp & Hcat & Hall & Hx & _ & Hloc).
  rewrite firstn_all in Hcat.
  assert (Hxne : x <> []).
  { intros H. specialize (Hx H). destruct line; [congruence|discriminate]. }
  assert (Hsegs : Forall (fun seg => seg <> []) (split v)).
  { rewrite Hsp. apply Forall_app. split; [exact Hall|].
    constructor; [exact Hxne|constructor]. }
  unfold adjust. destruct (Z.eqb_spec linePos (len line)) as [Heq|Hne'].
  - rewrite Hsp, go_index_last_snoc. cbn [mbind option_bind split index pos].
    eexists _, _, _. split; [reflexivity|]. rewrite <- Hsp.
    split; [exact Hsegs|]. intros _.
    destruct (Z.ltb_spec linePos (len line)); [lia|].
    rewrite Hsp, offset_last, <- Hsp, Hcat. reflexivity.
  - cbn [mbind option_bind]. eexists _, _, _. split; [reflexivity|].
    split; [exact Hsegs|]. intros Hin.
    destruct (Z.ltb_spec linePos (len line)); [|lia].
    destruct (decide (0 <= linePos < Z.of_nat (length line))) as [_|Hout];
      [|unfold len in *; lia].
    destruct Hloc as (_ & Hoff). lia.
Qed.

Lemma tokeniseLine_located (line : list rune) (linePos : Z) :
  line <> [] ->
  exists v, tokeniseLine line linePos =
              (v' ← adjust line linePos v; Some (split v', index v', pos v'))
            /\ located line linePos (length line) v.
Proof.
  intros Hne. unfold tokeniseLine.
  destruct (Z.eqb_spec (len line) 0) as [Hlen|_].
  { destruct line; [congruence|]. unfold len in Hlen. simpl in Hlen. lia. }
  destruct (range_loop_inv (tokeniseLine_body line linePos)
              (located line linePos) line)
    with (s := Vars [[]] false 0 0) as (v & -> & Hinv).
  - intros k r s0. apply tokeniseLine_body_located.
  - apply located_init.
  - exists v. split; [reflexivity|exact Hinv].
Qed.

Lemma tokeniseSplitSpaces_located (line : list rune) (linePos : Z) :
  line <> [] ->
  exists v, tokeniseSplitSpaces line linePos =
              (v' ← adjust line linePos v; Some (split v', index v', pos v'))
            /\ located line linePos (length line) v.
Proof.
  intros Hne. unfold tokeniseSplitSpaces.
  destruct (Z.eqb_spec (len line) 0) as [Hlen|_].
  { destruct line; [congruence|]. unfold len in Hlen. simpl in Hlen. lia. }
  destruct (range_loop_inv (tokeniseSplitSpaces_body line linePos)
              (located line linePos) line)
    with (s := Vars [[]] false 0 0) as (v & -> & Hinv).
  - intros k r s0. apply tokeniseSplitSpaces_body_located.
  - apply located_init.
  - exists v. split; [reflexivity|exact Hinv].
Qed.

(** [tokeniseLine] and [tokeniseSplitSpaces] never return an empty
    segment. *)
Theorem tokenisers_return_no_empty_segment (line : list rune) (linePos : Z)
    (split : list gostring) (index pos : Z) :
  tokeniseLine line linePos = Some (split, index, pos) \/
  tokeniseSplitSpaces line linePos = Some (split, index, pos) ->
  Forall (fun seg => seg <> []) split.
Proof.
  destruct line as [|r0 line0].
  { intros [H|H]; injection H as <- _ _; constructor. }
  assert (Hne : r0 :: line0 <> []) by discriminate.
  intros [H|H].
  - destruct (tokeniseLine_located (r0 :: line0) linePos Hne) as (v & Hv & Hl).
    destruct (located_result _ linePos v Hne Hl) as (s' & i' & p' & Hr & Hf & _).
    rewrite Hv, Hr in H. injection H as <- _ _. exact Hf.
  - destruct (tokeniseSplitSpaces_located (r0 :: line0) linePos Hne)
      as (v & Hv & Hl).
    destruct (located_result _ linePos v Hne Hl) as (s' & i' & p' & Hr & Hf & _).
    rewrite Hv, Hr in H. injection H as <- _ _. exact Hf.
Qed.

Lemma tokenisers_return_no_empty_segment_witness :
  Forall (fun seg => seg <> [])
    [Scenario.bytes "ls "; Scenario.bytes "-"; Scenario.bytes "la"].
Proof.
  apply (tokenisers_return_no_empty_segment (Scenario.bytes "ls -la") 3
           _ 1 0).
  left. reflexivity.
Defined.

(** The result of both tokenisers designates the cursor.  For a non-empty
    line and [0 <= linePos <= len(line)], the bytes of the segments before
    [index] plus [pos] count up to the last byte of the rune at [linePos],
    or to the end of the line when the cursor is after the last rune. *)
Theorem tokenisers_locate_the_cursor (line : list rune) (linePos : Z)
    (split : list gostring) (index pos : Z) :
  line <> [] -> 0 <= linePos <= len line ->
  tokeniseLine line linePos = Some (split, index, pos) \/
  tokeniseSplitSpaces line linePos = Some (split, index, pos) ->
  offset split index pos =
  if linePos <? len line
  then len (string_of_runes (take (Z.to_nat linePos + 1) line)) - 1
  else len (string_of_runes line).
Proof.
  intros Hne Hin [H|H].
  - destruct (tokeniseLine_located line linePos Hne) as (v & Hv & Hl).
    destruct (located_result _ linePos v Hne Hl) as (s' & i' & p' & Hr & _ & Ho).
    rewrite Hv, Hr in H. injection H as <- <- <-. apply Ho. exact Hin.
  - destruct (tokeniseSplitSpaces_located line linePos Hne) as (v & Hv & Hl).
    destruct (located_result _ linePos v Hne Hl) as (s' & i' & p' & Hr & _ & Ho).
    rewrite Hv, Hr in H. injection H as <- <- <-. apply Ho. exact Hin.
Qed.

Lemma tokenisers_locate_the_cursor_witness :
  offset [Scenario.bytes "ls "; Scenario.bytes "-"; Scenario.bytes "la"] 1 0
  = 3.
Proof.
  apply (tokenisers_locate_the_cursor (Scenario.bytes "ls -la") 3).
  - discriminate.
  - vm_compute. split; congruence.
  - left. reflexivity.
Defined.

Lemma string_of_ascii_runes_length (l : list rune) :
  Forall (fun r => 0 <= r <= 127) l -> len (string_of_runes l) = len l.
Proof.
  unfold string_of_runes. induction 1 as [|r l Hr _ IH]; [reflexivity|].
  cbn [map concat]. rewrite len_app, IH. unfold encode_rune.
  destruct (Z.leb_spec 0 r); [|lia]. destruct (Z.leb_spec r 127); [|lia].
  unfold len. simpl. lia.
Qed.

(** On a line of ASCII runes the result of both tokenisers gives the cursor
    back: the lengths of the segments before [index] plus [pos] are
    [linePos]. *)
Theorem tokenisers_give_the_cursor_back_on_ascii (line : list rune)
    (linePos : Z) (split : list gostring) (index pos : Z) :
  Forall (fun r => 0 <= r <= 127) line ->
  line <> [] -> 0 <= linePos <= len line ->
  tokeniseLine line linePos = Some (split, index, pos) \/
  tokeniseSplitSpaces line linePos = Some (split, index, pos) ->
  offset split index pos = linePos.
Proof.
  intros Hascii Hne Hin Htok.
  assert (Hoff : offset split index pos =
                 if linePos <? len line
                 then len (string_of_runes
                             (take (Z.to_nat linePos + 1) line)) - 1
                 else len (string_of_runes line)).
  { destruct Htok as [H|H].
    - destruct (tokeniseLine_located line linePos Hne) as (v & Hv & Hl).
      destruct (located_result _ linePos v Hne Hl)
        as (s' & i' & p' & Hr & _ & Ho).
      rewrite Hv, Hr in H. injection H as <- <- <-. apply Ho. exact Hin.
    - destruct (tokeniseSplitSpaces_located line linePos Hne)
        as (v & Hv & Hl).
      destruct (located_result _ linePos v Hne Hl)
        as (s' & i' & p' & Hr & _ & Ho).
      rewrite Hv, Hr in H. injection H as <- <- <-. apply Ho. exact Hin. }
  rewrite Hoff. destruct (Z.ltb_spec linePos (len line)).
  - rewrite string_of_ascii_runes_length by (apply Forall_take; exact Hascii).
    unfold len in *. rewrite length_take. lia.
  - rewrite string_of_ascii_runes_length by exact Hascii. lia.
Qed.

Lemma tokenisers_give_the_cursor_back_on_ascii_witness :
  offset [Scenario.bytes "ls "; Scenario.bytes "-"; Scenario.bytes "la"] 2 1
  = 5.
Proof.
  apply (tokenisers_give_the_cursor_back_on_ascii (Scenario.bytes "ls -la")).
  - repeat constructor; vm_compute; congruence.
  - discriminate.
  - vm_compute. split; congruence.
  - left. reflexivity.
Defined.

(** Two loops over the same slice whose bodies keep a relation [R] between
    their states, panicking together, end in related states or panic
    together. *)
Lemma range_loop_rel {A S1 S2} (body1 : Z -> A -> S1 -> option S1)
    (body2 : Z -> A -> S2 -> option S2) (R : nat -> S1 -> S2 -> Prop)
    (line : list A) :
  (forall k r s1 s2, line !! k = Some r -> R k s1 s2 ->
     option_Forall2 (R (S k)) (body1 (Z.of_nat k) r s1)
       (body2 (Z.of_nat k) r s2)) ->
  forall s1 s2, R 0%nat s1 s2 ->
  option_Forall2 (R (length line)) (range_loop body1 0 line s1)
    (range_loop body2 0 line s2).
Proof.
  intros Hstep.
  assert (Hgen : forall l k s1 s2, drop k line = l ->
            (k <= length line)%nat -> R k s1 s2 ->
            option_Forall2 (R (length line))
              (range_loop body1 (Z.of_nat k) l s1)
              (range_loop body2 (Z.of_nat k) l s2)).
  { induction l as [|r t IH]; intros k s1 s2 Hd Hk HR.
    - assert (k = length line) as ->.
      { apply (f_equal length) in Hd. rewrite length_drop in Hd.
        simpl in Hd. lia. }
      constructor. exact HR.
    - assert (Hr : line !! k = Some r).
      { rewrite <- (Nat.add_0_r k), <- lookup_drop, Hd. reflexivity. }
      cbn [range_loop].
      destruct (Hstep k r s1 s2 Hr HR) as [s1' s2' HR'|];
        cbn [mbind option_bind]; [|constructor].
      replace (Z.of_nat k + 1) with (Z.of_nat (S k)) by lia.
      apply IH; [|apply lookup_lt_Some in Hr; lia|exact HR'].
      rewrite (drop_S _ _ _ Hr) in Hd. congruence. }
  intros s1 s2 H0. apply (Hgen line 0%nat); [apply drop_0|lia|exact H0].
Qed.

Lemma mark_in_step (line : list rune) (linePos : Z) (k : nat)
    (sp : list gostring) (b1 b2 : bool) (i p : Z) :
  b1 = after_blank line (S k) ->
  option_Forall2 (in_step line (S k))
    (mark linePos (Z.of_nat k) (Vars sp b1 i p))
    (mark linePos (Z.of_nat k) (Vars sp b2 i p)).
Proof.
  intros Hb. unfold mark. cbn [split punc index pos].
  destruct (Z.of_nat k =? linePos).
  - destruct (go_index sp (len sp - 1)); cbn [mbind option_bind];
      constructor. repeat split; exact Hb.
  - constructor. repeat split; exact Hb.
Qed.

(** One iteration of the two loops on a rune that is no punctuation. *)
Lemma bodies_in_step (line : list rune) (linePos : Z) (k : nat) (r : rune)
    (v1 v2 : vars) :
  isPunctuation r = false -> line !! k = Some r -> in_step line k v1 v2 ->
  option_Forall2 (in_step line (S k))
    (tokeniseLine_body line linePos (Z.of_nat k) r v1)
    (tokeniseSplitSpaces_body line linePos (Z.of_nat k) r v2).
Proof.
  intros Hnp Hr (Hsp & Hi & Hp & Hpunc).
  unfold tokeniseLine_body, tokeniseSplitSpaces_body.
  rewrite Hnp, Hsp, Hi, Hp.
  assert (Hafter : after_blank line (S k) = isBlank r).
  { cbn [after_blank]. rewrite Hr. reflexivity. }
  destruct (isBlank r) eqn:Hb.
  - destruct (add_to_last (split v2) (encode_rune r));
      cbn [mbind option_bind]; [|constructor].
    apply mark_in_step. rewrite Hafter. reflexivity.
  - rewrite (previous_rune_eq line k r isBlank false Hr).
    cbn [mbind option_bind].
    assert (Ho : punc v1 = match k with
                           | O => false
                           | S j => match line !! j with
                                    | Some p => isBlank p
                                    | None => false
                                    end
                           end) by exact Hpunc.
    rewrite <- Ho.
    destruct (add_to_last (if punc v1 then append_empty (split v2)
                           else split v2) (encode_rune r));
      cbn [mbind option_bind]; [|constructor].
    apply mark_in_step. rewrite Hafter. reflexivity.
Qed.

(** On a line without punctuation (a rune of [isPunctuation]), the
    punctuation-aware tokeniser and the whitespace tokeniser return the same
    result, for every cursor position. *)
Theorem tokenisers_agree_without_punctuation (line : list rune)
    (linePos : Z) :
  Forall (fun r => isPunctuation r = false) line ->
  tokeniseLine line linePos = tokeniseSplitSpaces line linePos.
Proof.
  intros Hnp. unfold tokeniseLine, tokeniseSplitSpaces.
  destruct (len line =? 0); [reflexivity|].
  destruct (range_loop_rel (tokeniseLine_body line linePos)
              (tokeniseSplitSpaces_body line linePos) (in_step line) line)
    with (s1 := Vars [[]] false 0 0) (s2 := Vars [[]] false 0 0)
    as [v1 v2 (Hsp & Hi & Hp & _)|].
  - intros k r s1 s2 Hr. apply bodies_in_step; [|exact Hr].
    rewrite Forall_forall in Hnp. apply Hnp.
    eapply list_elem_of_lookup_2. exact Hr.
  - repeat split.
  - cbn [mbind option_bind]. unfold adjust.
    destruct (linePos =? len line).
    + rewrite Hsp.
      destruct (go_index (split v2) (len (split v2) - 1)); reflexivity.
    + cbn [mbind option_bind]. rewrite Hsp, Hi, Hp. reflexivity.
  - reflexivity.
Qed.

Lemma tokenisers_agree_without_punctuation_witness :
  tokeniseLine (Scenario.bytes "cd usr local") 7 =
  tokeniseSplitSpaces (Scenario.bytes "cd usr local") 7.
Proof.
  apply tokenisers_agree_without_punctuation.
  repeat constructor.
Defined.

End TokeniseEdges.
(** ** The bracket tokeniser *)

Module BracketFacts.
Import Utf8 Brackets.

Lemma go_slice_Some {A} (l : list A) (a b : Z) :
  0 <= a <= b -> b <= len l ->
  go_slice l a b = Some (take (Z.to_nat (b - a)) (drop (Z.to_nat a) l)).
Proof.
  intros Ha Hb. unfold go_slice.
  destruct (Z.leb_spec 0 a); [|lia]. destruct (Z.leb_spec a b); [|lia].
  destruct (Z.leb_spec b (len l)); [|lia]. reflexivity.
Qed.

Lemma go_slice_prefix {A} (pre rest : list A) :
  go_slice (pre ++ rest) 0 (len pre) = Some pre.
Proof.
  rewrite go_slice_Some
    by (rewrite ?len_app; pose proof (len_nonneg pre);
        pose proof (len_nonneg rest); lia).
  rewrite Z.sub_0_r. unfold len. rewrite Nat2Z.id.
  change (Z.to_nat 0) with 0%nat. rewrite drop_0, take_app_length.
  reflexivity.
Qed.

Lemma go_slice_middle {A} (pre mid rest : list A) :
  go_slice (pre ++ mid ++ rest) (len pre) (len pre + len mid) = Some mid.
Proof.
  rewrite go_slice_Some
    by (rewrite ?len_app; pose proof (len_nonneg pre);
        pose proof (len_nonneg mid); pose proof (len_nonneg rest); lia).
  replace (len pre + len mid - len pre) with (len mid) by lia.
  unfold len. rewrite !Nat2Z.id, drop_app_length, take_app_length.
  reflexivity.
Qed.

Lemma go_slice_negative {A} (l : list A) (a b : Z) :
  b < a \/ a < 0 -> go_slice l a b = None.
Proof.
  intros H. unfold go_slice.
  destruct (Z.leb_spec 0 a); [|reflexivity].
  destruct (Z.leb_spec a b); [lia|reflexivity].
Qed.

Lemma range_until_app {A St R} (body : Z -> A -> St -> option (flow St R))
    (l1 l2 : list A) (i : Z) (s : St) :
  range_until body i (l1 ++ l2) s =
  (f ← range_until body i l1 s;
   match f with
   | Next s' => range_until body (i + len l1) l2 s'
   | Return x => Some (Return x)
   end).
Proof.
  revert i s. induction l1 as [|r t IH]; intros i s.
  - cbn [app range_until mbind option_bind]. unfold len. simpl.
    rewrite Z.add_0_r. reflexivity.
  - cbn [app range_until]. destruct (body i r s) as [[s'|x]|];
      cbn [mbind option_bind]; [|reflexivity|reflexivity].
    rewrite IH. replace (i + 1 + len t) with (i + len (r :: t))
      by (unfold len; simpl; lia).
    reflexivity.
Qed.

(** A loop that keeps [P] on its states returns a result of [Q] when its
    body does. *)
Lemma range_until_inv {A St R} (body : Z -> A -> St -> option (flow St R))
    (P : St -> Prop) (Q : R -> Prop) :
  (forall i r s, P s ->
     match body i r s with
     | Some (Next s') => P s'
     | Some (Return x) => Q x
     | None => True
     end) ->
  forall l i s, P s ->
    match range_until body i l s with
    | Some (Next s') => P s'
    | Some (Return x) => Q x
    | None => True
    end.
Proof.
  intros Hbody. induction l as [|r t IH]; intros i s HP; [exact HP|].
  cbn [range_until]. specialize (Hbody i r s HP).
  destruct (body i r s) as [[s'|x]|]; cbn [mbind option_bind];
    [apply IH; exact Hbody|exact Hbody|exact I].
Qed.

Section Body.

Variables (line : list rune) (linePos : Z) (open close : rune).

Local Abbreviation body := (tokeniseBrackets_body line linePos open close).

Lemma body_inert (i : Z) (r : rune) (v : vars) :
  inert open close r -> body i r v = Some (Next v).
Proof.
  intros (H1 & H2 & H3 & H4). unfold tokeniseBrackets_body.
  destruct (Z.eqb_spec r 39); [contradiction|].
  destruct (Z.eqb_spec r 34); [contradiction|].
  destruct (Z.eqb_spec r open); [contradiction|].
  destruct (Z.eqb_spec r close); [contradiction|]. reflexivity.
Qed.

Lemma loop_inert (l : list rune) (i : Z) (v : vars) :
  Forall (inert open close) l -> range_until body i l v = Some (Next v).
Proof.
  intros H. revert i. induction H as [|r t Hr _ IH]; intros i;
    [reflexivity|].
  cbn [range_until]. rewrite (body_inert i r v Hr).
  cbn [mbind option_bind]. apply IH.
Qed.

End Body.

Lemma pair_distinct (open close : rune) :
  pair open close ->
  open <> 39 /\ open <> 34 /\ close <> 39 /\ close <> 34 /\ close <> open.
Proof. intros [(-> & ->)|[(-> & ->)|(-> & ->)]]; repeat split; lia. Qed.

Lemma brackets_open (open close : rune) :
  pair open close -> brackets open = Some (open, close).
Proof. intros [(-> & ->)|[(-> & ->)|(-> & ->)]]; reflexivity. Qed.

Lemma brackets_close (open close : rune) :
  pair open close -> brackets close = Some (open, close).
Proof. intros [(-> & ->)|[(-> & ->)|(-> & ->)]]; reflexivity. Qed.

(** [tokeniseBrackets] has no guard on the cursor: outside the line, and so
    on every empty line, it panics on [line[linePos]], where the two other
    tokenisers return [(nil, 0, 0)]. *)
Theorem tokeniseBrackets_panics_off_the_line (line : list rune)
    (linePos : Z) :
  ~ 0 <= linePos < len line -> tokeniseBrackets line linePos = None.
Proof.
  intros H. unfold tokeniseBrackets, go_index.
  destruct (Z.leb_spec 0 linePos); [|reflexivity].
  destruct (Z.ltb_spec linePos (len line)); [lia|reflexivity].
Qed.

Lemma tokeniseBrackets_panics_off_the_line_witness :
  tokeniseBrackets [] 0 = None /\
  tokeniseBrackets (Scenario.bytes "(a)") 3 = None.
Proof.
  split; apply tokeniseBrackets_panics_off_the_line; vm_compute;
    intros [H1 H2]; congruence.
Defined.

Lemma pos_at_insert (sp : list gostring) (c : Z) (m : gmap Z Z) (k x ma : Z)
    (si d : bool) :
  pos_at (Vars sp c (<[k := x]> m) ma si d) k = x.
Proof. unfold pos_at. cbn [pos]. rewrite lookup_insert_eq. reflexivity. Qed.

(** The first iteration on an opening bracket under the cursor. *)
Lemma body_open_under_cursor (line : list rune) (open close : rune)
    (i : Z) (v : vars) :
  pair open close -> single v = false -> double v = false ->
  tokeniseBrackets_body line i open close i open v =
  (before ← go_slice line 0 (i - 1);
   Some (Next (Vars [string_of_runes before] (count v + 1)
                 (<[count v + 1 := i]> (pos v)) (count v + 1) false false))).
Proof.
  intros Hp Hs Hd. destruct (pair_distinct _ _ Hp) as (H1 & H2 & _).
  unfold tokeniseBrackets_body. rewrite Hs, Hd.
  destruct (Z.eqb_spec open 39); [contradiction|].
  destruct (Z.eqb_spec open 34); [contradiction|].
  rewrite !Z.eqb_refl. reflexivity.
Qed.

Lemma body_open_elsewhere (line : list rune) (linePos : Z)
    (open close : rune) (i : Z) (v : vars) :
  pair open close -> single v = false -> double v = false -> i <> linePos ->
  tokeniseBrackets_body line linePos open close i open v =
  Some (Next (Vars (split v) (count v + 1) (<[count v + 1 := i]> (pos v))
                (matched v) false false)).
Proof.
  intros Hp Hs Hd Hi. destruct (pair_distinct _ _ Hp) as (H1 & H2 & _).
  unfold tokeniseBrackets_body. rewrite Hs, Hd.
  destruct (Z.eqb_spec open 39); [contradiction|].
  destruct (Z.eqb_spec open 34); [contradiction|].
  rewrite Z.eqb_refl. destruct (Z.eqb_spec i linePos); [contradiction|].
  reflexivity.
Qed.

Lemma body_close (line : list rune) (linePos : Z) (open close : rune)
    (i : Z) (v : vars) :
  pair open close -> single v = false -> double v = false ->
  tokeniseBrackets_body line linePos open close i close v =
  if matched v =? count v then
    inside ← go_slice line (pos_at v (count v)) i;
    Some (Return (split v ++ [string_of_runes inside], 1, 0))
  else if i =? linePos then
    before ← go_slice line 0 (pos_at v (count v) - 1);
    inside ← go_slice line (pos_at v (count v)) i;
    Some (Return ([string_of_runes before; string_of_runes inside], 1,
                  len (string_of_runes inside)))
  else
    Some (Next (Vars (split v) (count v - 1) (pos v) (matched v)
                  (single v) (double v))).
Proof.
  intros Hp Hs Hd.
  destruct (pair_distinct _ _ Hp) as (_ & _ & H1 & H2 & H3).
  unfold tokeniseBrackets_body. rewrite Hs, Hd.
  destruct (Z.eqb_spec close 39); [contradiction|].
  destruct (Z.eqb_spec close 34); [contradiction|].
  destruct (Z.eqb_spec close open); [contradiction|].
  rewrite Z.eqb_refl. reflexivity.
Qed.

(** A pair of brackets opened by the first rune of the line cannot be
    tokenised: with the cursor on its opening bracket, or on its closing
    bracket, [tokeniseBrackets] panics on the slice [line[:-1]]. *)
Theorem tokeniseBrackets_panics_on_a_leading_bracket (open close : rune)
    (rest : list rune) :
  pair open close ->
  tokeniseBrackets (open :: rest) 0 = None /\
  forall body post,
    rest = body ++ close :: post -> Forall (inert open close) body ->
    tokeniseBrackets (open :: rest) (1 + len body) = None.
Proof.
  intros Hp. split.
  - unfold tokeniseBrackets. cbn [go_index].
    change (go_index (open :: rest) 0) with (Some open).
    cbn [mbind option_bind]. rewrite (brackets_open _ _ Hp).
    cbn [range_until].
    rewrite body_open_under_cursor; [|exact Hp|reflexivity|reflexivity].
    rewrite go_slice_negative by lia. reflexivity.
  - intros body post -> Hbody. unfold tokeniseBrackets.
    pose proof (len_nonneg body) as Hb.
    assert (Hunder : go_index (open :: body ++ close :: post) (1 + len body)
                     = Some close).
    { replace (1 + len body) with (Z.of_nat (length (open :: body)))
        by (unfold len; simpl; lia).
      apply go_index_nat.
      change (open :: body ++ close :: post)
        with ((open :: body) ++ close :: post).
      apply list_lookup_middle. reflexivity. }
    rewrite Hunder. cbn [mbind option_bind]. rewrite (brackets_close _ _ Hp).
    cbn [range_until].
    rewrite body_open_elsewhere; [|exact Hp|reflexivity|reflexivity|lia].
    cbn [mbind option_bind]. rewrite range_until_app.
    rewrite loop_inert by exact Hbody. cbn [mbind option_bind range_until].
    rewrite body_close; [|exact Hp|reflexivity|reflexivity].
    cbn [matched count]. change (0 =? 0 + 1) with false. cbv iota.
    replace (0 + 1 + len body) with (1 + len body) by lia.
    rewrite Z.eqb_refl, pos_at_insert.
    rewrite (go_slice_negative _ 0 (0 - 1)) by lia. reflexivity.
Qed.

Lemma tokeniseBrackets_panics_on_a_leading_bracket_witness :
  tokeniseBrackets (Scenario.bytes "(a)") 0 = None /\
  tokeniseBrackets (Scenario.bytes "(a)") 2 = None.
Proof.
  assert (Hp : pair 40 41) by (left; split; reflexivity).
  destruct (tokeniseBrackets_panics_on_a_leading_bracket 40 41
              (Scenario.bytes "a)") Hp) as (H0 & H2).
  split; [exact H0|].
  apply (H2 (Scenario.bytes "a") []); [reflexivity|].
  repeat constructor; discriminate.
Defined.

(** A simple pair of brackets: the line is [pre], one rune [p], the opening
    bracket, [body], the closing bracket and [post], with no quote and no
    bracket of that kind in [pre], [p] and [body].  With the cursor on the
    opening or on the closing bracket the segments are [pre] (the rune
    before the opening bracket is left out) and the opening bracket followed
    by [body]; the index is 1, the position 0 from the opening bracket and
    the length of the second segment from the closing one. *)
Theorem tokeniseBrackets_simple_pair (open close p : rune)
    (pre body post : list rune) :
  let line := (pre ++ [p]) ++ open :: body ++ close :: post in
  let inside := string_of_runes (open :: body) in
  pair open close ->
  Forall (inert open close) (pre ++ [p]) -> Forall (inert open close) body ->
  tokeniseBrackets line (len pre + 1) =
    Some ([string_of_runes pre; inside], 1, 0) /\
  tokeniseBrackets line (len pre + 2 + len body) =
    Some ([string_of_runes pre; inside], 1, len inside).
Proof.
  intros line inside Hp Hpre Hbody.
  pose proof (len_nonneg pre) as Hlp. pose proof (len_nonneg body) as Hlb.
  assert (Hl1 : len (pre ++ [p]) = len pre + 1)
    by (rewrite len_app; reflexivity).
  assert (Hopen : go_index line (len pre + 1) = Some open).
  { rewrite <- Hl1. unfold len at 1. apply go_index_nat.
    apply list_lookup_middle. reflexivity. }
  assert (Hline : line = ((pre ++ [p]) ++ open :: body) ++ close :: post).
  { unfold line. rewrite <- !app_assoc. reflexivity. }
  assert (Hl2 : len ((pre ++ [p]) ++ open :: body) = len pre + 2 + len body).
  { rewrite len_app, Hl1. unfold len. simpl. lia. }
  assert (Hclose : go_index line (len pre + 2 + len body) = Some close).
  { rewrite <- Hl2, Hline. unfold len at 1. apply go_index_nat.
    apply list_lookup_middle. reflexivity. }
  assert (Hbefore : go_slice line 0 (len pre) = Some pre).
  { unfold line. rewrite <- !app_assoc. apply go_slice_prefix. }
  assert (Hinside : go_slice line (len pre + 1) (len pre + 2 + len body) =
                    Some (open :: body)).
  { unfold line.
    replace (len pre + 2 + len body)
      with (len (pre ++ [p]) + len (open :: body))
      by (rewrite Hl1; unfold len; simpl; lia).
    rewrite <- Hl1.
    change (open :: body ++ close :: post)
      with ((open :: body) ++ close :: post).
    apply go_slice_middle. }
  split.
  - unfold tokeniseBrackets. rewrite Hopen. cbn [mbind option_bind].
    rewrite (brackets_open _ _ Hp). fold line.
    unfold line at 2. rewrite range_until_app, loop_inert by exact Hpre.
    cbn [mbind option_bind range_until]. rewrite Z.add_0_l, Hl1.
    rewrite body_open_under_cursor; [|exact Hp|reflexivity|reflexivity].
    replace (len pre + 1 - 1) with (len pre) by lia. rewrite Hbefore.
    cbn [mbind option_bind]. rewrite range_until_app.
    rewrite loop_inert by exact Hbody. cbn [mbind option_bind range_until].
    rewrite body_close; [|exact Hp|reflexivity|reflexivity].
    cbn [matched count split]. rewrite Z.eqb_refl, pos_at_insert.
    replace (len pre + 1 + 1 + len body) with (len pre + 2 + len body) by lia.
    rewrite Hinside. reflexivity.
  - unfold tokeniseBrackets. rewrite Hclose. cbn [mbind option_bind].
    rewrite (brackets_close _ _ Hp). fold line.
    unfold line at 2. rewrite range_until_app, loop_inert by exact Hpre.
    cbn [mbind option_bind range_until]. rewrite Z.add_0_l, Hl1.
    rewrite body_open_elsewhere; [|exact Hp|reflexivity|reflexivity|lia].
    cbn [mbind option_bind]. rewrite range_until_app.
    rewrite loop_inert by exact Hbody. cbn [mbind option_bind range_until].
    rewrite body_close; [|exact Hp|reflexivity|reflexivity].
    cbn [matched count split]. change (0 =? 0 + 1) with false. cbv iota.
    replace (len pre + 1 + 1 + len body) with (len pre + 2 + len body) by lia.
    rewrite Z.eqb_refl, pos_at_insert.
    replace (len pre + 1 - 1) with (len pre) by lia.
    rewrite Hbefore. cbn [mbind option_bind]. rewrite Hinside. reflexivity.
Qed.

Lemma tokeniseBrackets_simple_pair_witness :
  tokeniseBrackets (Scenario.bytes "echo $(ls -l) x") 6 =
    Some ([Scenario.bytes "echo "; Scenario.bytes "(ls -l"], 1, 0) /\
  tokeniseBrackets (Scenario.bytes "echo $(ls -l) x") 12 =
    Some ([Scenario.bytes "echo "; Scenario.bytes "(ls -l"], 1, 6).
Proof.
  apply (tokeniseBrackets_simple_pair 40 41 36 (Scenario.bytes "echo ")
           (Scenario.bytes "ls -l") (Scenario.bytes " x")).
  - left. split; reflexivity.
  - repeat constructor; discriminate.
  - repeat constructor; discriminate.
Defined.

(** A closing bracket under the cursor that nothing opened: when no quote
    and no bracket of that kind comes before it, the result is the single
    segment of the text before the bracket, with the index 1, which
    addresses no segment. *)
Theorem tokeniseBrackets_unopened_bracket (open close : rune)
    (pre post : list rune) :
  pair open close -> Forall (inert open close) pre ->
  tokeniseBrackets (pre ++ close :: post) (len pre) =
  Some ([string_of_runes pre], 1, 0).
Proof.
  intros Hp Hpre. unfold tokeniseBrackets.
  assert (Hunder : go_index (pre ++ close :: post) (len pre) = Some close).
  { unfold len. apply go_index_nat, list_lookup_middle. reflexivity. }
  rewrite Hunder. cbn [mbind option_bind]. rewrite (brackets_close _ _ Hp).
  rewrite range_until_app, loop_inert by exact Hpre.
  cbn [mbind option_bind range_until].
  rewrite body_close; [|exact Hp|reflexivity|reflexivity].
  cbn [matched count split]. rewrite Z.eqb_refl. unfold pos_at.
  cbn [pos]. rewrite lookup_empty. change (default 0 None) with 0.
  rewrite Z.add_0_l, go_slice_prefix. reflexivity.
Qed.

Lemma tokeniseBrackets_unopened_bracket_witness :
  tokeniseBrackets (Scenario.bytes "ab] c") 2 =
  Some ([Scenario.bytes "ab"], 1, 0).
Proof.
  apply (tokeniseBrackets_unopened_bracket 91 93 (Scenario.bytes "ab")
           (Scenario.bytes " c")).
  - right. right. split; reflexivity.
  - repeat constructor; discriminate.
Defined.

Lemma body_keeps_shape (line : list rune) (linePos : Z) (open close : rune)
    (i : Z) (r : rune) (v : vars) :
  (length (split v) <= 1)%nat ->
  match tokeniseBrackets_body line linePos open close i r v with
  | Some (Next v') => (length (split v') <= 1)%nat
  | Some (Return x) => shaped x
  | None => True
  end.
Proof.
  intros Hv. unfold tokeniseBrackets_body.
  destruct (r =? 39); [destruct (single v); exact Hv|].
  destruct (r =? 34); [destruct (double v); exact Hv|].
  destruct (r =? open).
  { destruct (negb (single v) && negb (double v)).
    - destruct (i =? linePos); [|exact Hv].
      destruct (go_slice line 0 (i - 1)); cbn [mbind option_bind split];
        [simpl; lia|exact I].
    - destruct (i =? linePos); [left; reflexivity|exact Hv]. }
  destruct (r =? close); [|exact Hv].
  destruct (negb (single v) && negb (double v)).
  - destruct (matched v =? count v).
    + destruct (go_slice line (pos_at v (count v)) i) as [inside|];
        cbn [mbind option_bind]; [|exact I].
      destruct (split v) as [|a [|b t]]; cbn [length app] in *.
      * right. left. eexists. reflexivity.
      * right. right. eexists _, _. left. reflexivity.
      * lia.
    + destruct (i =? linePos); [|exact Hv].
      destruct (go_slice line 0 (pos_at v (count v) - 1));
        cbn [mbind option_bind]; [|exact I].
      destruct (go_slice line (pos_at v (count v)) i);
        cbn [mbind option_bind]; [|exact I].
      right. right. eexists _, _. right. reflexivity.
  - destruct (i =? linePos); [left; reflexivity|exact Hv].
Qed.

(** Whatever the line and the cursor, when [tokeniseBrackets] returns it
    returns either [(nil, 0, 0)] or one or two segments with the index 1,
    and the position 0 or the length of the second segment. *)
Theorem tokeniseBrackets_result_shape (line : list rune) (linePos : Z)
    (x : result) :
  tokeniseBrackets line linePos = Some x -> shaped x.
Proof.
  unfold tokeniseBrackets.
  destruct (go_index line linePos) as [under|]; cbn [mbind option_bind];
    [|discriminate].
  destruct (brackets under) as [[open close]|];
    [|intros [= <-]; left; reflexivity].
  pose proof (range_until_inv
                (tokeniseBrackets_body line linePos open close)
                (fun v => (length (split v) <= 1)%nat) shaped
                (body_keeps_shape line linePos open close)
                line 0 (Vars [] 0 ∅ 0 false false)) as Hinv.
  cbn [split length] in Hinv. specialize (Hinv (Nat.le_0_l 1)).
  destruct (range_until _ 0 line _) as [[v|y]|]; cbn [mbind option_bind];
    [intros [= <-]; left; reflexivity
    |intros [= <-]; exact Hinv|discriminate].
Qed.

Lemma tokeniseBrackets_result_shape_witness :
  shaped ([Scenario.bytes "f"; Scenario.bytes "{a {b} c"], 1, 8).
Proof.
  apply (tokeniseBrackets_result_shape (Scenario.bytes "f {a {b} c}") 10).
  reflexivity.
Defined.

End BracketFacts.

(** ** The display engine: successive repaints *)

Module DisplayEdges.
Import Utf8 Display DisplayAccept DisplayFacts.

Section Collaborators.

Variable World : Type.
Variable completer_Line : World -> Line.t * Z.
Variable completer_IsInserting : World -> bool.
Variable completer_Autocomplete : World -> World.
Variable completer_Display : Z -> World -> World.
Variable completer_Coordinates : World -> Z.
Variable histories_Suggest : World -> Line.t -> Line.t.
Variable keys_GetCursorPos : World -> Z * Z.
Variable prompt_LastUsed : World -> Z.
Variable hint_Coordinates : World -> Z.
Variable opts_GetBool : World -> string -> bool.
Variable term_GetWidth : World -> Z.
Variable term_GetHeight : World -> Z.
Variable ui_Highlight : World -> list rune -> gostring.
Variable FgBlackBright Reset : gostring.

Local Abbreviation computeCoordinates :=
  (computeCoordinates World completer_Line completer_IsInserting
     histories_Suggest keys_GetCursorPos prompt_LastUsed opts_GetBool
     term_GetWidth).
Local Abbreviation Refresh :=
  (Refresh World completer_Line completer_IsInserting completer_Autocomplete
     completer_Display completer_Coordinates histories_Suggest
     keys_GetCursorPos prompt_LastUsed hint_Coordinates opts_GetBool
     term_GetWidth term_GetHeight ui_Highlight FgBlackBright Reset).
Local Abbreviation AcceptLine :=
  (AcceptLine World completer_Line completer_IsInserting histories_Suggest
     keys_GetCursorPos prompt_LastUsed opts_GetBool term_GetWidth).

(** What one [Refresh] prints and retains. *)
Lemma Refresh_prints (s : state World) :
  exists s' rest,
    Refresh s = Some s' /\
    out s' = out s ++ HideCursor :: to_line_start (eng s) ++ rest /\
    geometry (eng s') = geometry (eng (computeCoordinates s)).
Proof.
  unfold Display.Refresh. cbv zeta.
  set (s1 := CursorToLineStart World (emit World HideCursor s)).
  set (s2 := computeCoordinates s1).
  set (s2' := emit World (MoveCursorBackwards (term_GetWidth (world s2))) s2).
  set (s3 := emit World (MoveCursorForwards (startCols (eng s2'))) s2').
  destruct (computeCoordinates_out World completer_Line completer_IsInserting
              histories_Suggest keys_GetCursorPos prompt_LastUsed
              opts_GetBool term_GetWidth s1) as (Hout2 & l & Hl).
  fold s2 in Hout2, Hl.
  assert (Hl3 : line (eng s3) = Some l) by exact Hl.
  destruct (prints_displayLine World opts_GetBool ui_Highlight FgBlackBright
              Reset s3 l Hl3) as (s4 & m4 & -> & H4).
  cbn [mbind option_bind].
  set (s5 := emit World (RightPrint (lineCol (eng s4)) true) s4).
  set (s6 := displayHelpers World completer_Autocomplete completer_Display
               completer_Coordinates hint_Coordinates term_GetWidth
               term_GetHeight s5).
  destruct (prints_displayHelpers World completer_Autocomplete
              completer_Display completer_Coordinates hint_Coordinates
              term_GetWidth term_GetHeight s5) as (m6 & H6).
  fold s6 in H6.
  destruct (prints_CursorHintToLineStart World s6) as (m7 & H7).
  destruct (prints_LineStartToCursorPos World term_GetWidth
              (CursorHintToLineStart World s6)) as (m8 & H8).
  pose proof (prints_trans World _ _ _ _ _
               (prints_trans World _ _ _ _ _
                  (prints_trans World _ _ _ _ _
                     (prints_trans World _ _ _ _ _
                        (prints_trans World _ _ _ _ _ H4
                           (prints_emit World _ s4)) H6)
                     H7) H8) (prints_emit World ShowCursor _)) as (Ho & Hg).
  eexists. eexists. split; [reflexivity|]. split.
  - rewrite Ho. subst s3 s2'. cbn [Display.emit out]. rewrite Hout2.
    subst s1. cbn [Display.CursorToLineStart Display.emit out eng].
    unfold to_line_start. rewrite <- !app_assoc. cbn [app]. reflexivity.
  - rewrite Hg. subst s3 s2' s2. cbn [Display.emit eng].
    rewrite (computeCoordinates_eng World completer_Line
               completer_IsInserting histories_Suggest keys_GetCursorPos
               prompt_LastUsed opts_GetBool term_GetWidth s1 s); reflexivity.
Qed.

Lemma to_line_start_geometry (e e' : Engine) :
  geometry e = geometry e' -> to_line_start e = to_line_start e'.
Proof.
  unfold geometry, to_line_start. intros [= H1 H2 H3 H4 H5 H6].
  rewrite H1, H5, H6. reflexivity.
Qed.

(** Two repaints in a row, the other components being changed at will in
    between (the user typed, the terminal was resized): the second
    [Refresh] starts by leaving the cursor position that the first one
    computed and left the cursor at, not one computed from the new state. *)
Theorem second_Refresh_undoes_the_first (s : state World) (w : World) :
  exists s1 s2 rest1 rest2,
    Refresh s = Some s1 /\
    Refresh (with_world w s1) = Some s2 /\
    out s2 = out s ++
             (HideCursor :: to_line_start (eng s) ++ rest1) ++
             (HideCursor :: to_line_start (eng (computeCoordinates s)) ++
              rest2).
Proof.
  destruct (Refresh_prints s) as (s1 & r1 & H1 & Ho1 & Hg1).
  destruct (Refresh_prints (with_world w s1)) as (s2 & r2 & H2 & Ho2 & _).
  exists s1, s2, r1, r2. split; [exact H1|]. split; [exact H2|].
  pose proof (to_line_start_geometry _ _ Hg1) as Ht.
  rewrite Ho2. cbn [with_world out eng]. rewrite Ho1, <- app_assoc.
  do 4 f_equal. exact Ht.
Qed.

(** The repaint that ends the input after a repaint: [AcceptLine] starts by
    leaving the cursor position that the last [Refresh] computed, goes to
    the end of the line as [computeCoordinates] now finds it, clears the
    screen below, prints the right prompt and a newline. *)
Theorem AcceptLine_after_Refresh (s : state World) (w : World) :
  exists s1 rest,
    Refresh s = Some s1 /\
    let final := eng (computeCoordinates (with_world w s1)) in
    out (AcceptLine (with_world w s1)) =
      out s ++ (HideCursor :: to_line_start (eng s) ++ rest) ++
      to_line_start (eng (computeCoordinates s)) ++
      [MoveCursorBackwards (term_GetWidth w);
       MoveCursorDown (lineRows final); MoveCursorForwards (lineCol final);
       ClearScreenBelow; RightPrint (lineCol final) false; Println] /\
    geometry (eng (AcceptLine (with_world w s1))) = geometry final.
Proof.
  destruct (Refresh_prints s) as (s1 & r1 & H1 & Ho1 & Hg1).
  exists s1, r1. split; [exact H1|]. cbv zeta.
  unfold DisplayAccept.AcceptLine. cbv zeta.
  set (s2 := CursorToLineStart World (with_world w s1)).
  assert (He : eng (computeCoordinates s2) =
               eng (computeCoordinates (with_world w s1))).
  { apply (computeCoordinates_eng World); reflexivity. }
  assert (Hw : world (computeCoordinates s2) = w).
  { unfold Display.computeCoordinates.
    destruct (completer_Line (world s2)) as [l c].
    destruct (keys_GetCursorPos (world s2)) as [sc sr].
    destruct (coordinates _ _ c) as [cc cr].
    destruct (if opts_GetBool (world s2) "history-autosuggest" then _ else _)
      as [lc lr].
    reflexivity. }
  destruct (computeCoordinates_out World completer_Line completer_IsInserting
              histories_Suggest keys_GetCursorPos prompt_LastUsed
              opts_GetBool term_GetWidth s2) as (Hout & _).
  cbn [Display.emit out eng world]. rewrite Hout, He, Hw. split.
  - subst s2. cbn [Display.CursorToLineStart Display.emit out eng with_world].
    pose proof (to_line_start_geometry _ _ Hg1) as Ht.
    unfold to_line_start in *. injection Ht as Hc Hr Hs.
    rewrite Ho1, Hc, Hr, Hs, <- !app_assoc. cbn [app]. reflexivity.
  - reflexivity.
Qed.

End Collaborators.

End DisplayEdges.

(** ** The undo history *)

Module UndoFacts.
Import Utf8 Undo.

Lemma take_snoc {A} (h : list A) (x : A) :
  take (Z.to_nat (len (h ++ [x]) - 1)) (h ++ [x]) = h.
Proof.
  replace (Z.to_nat (len (h ++ [x]) - 1)) with (length h)
    by (rewrite len_app; unfold len; simpl; lia).
  rewrite take_app_length. reflexivity.
Qed.

Lemma len_snoc_nonzero {A} (h : list A) (x : A) :
  (len (h ++ [x]) =? 0) = false.
Proof.
  apply Z.eqb_neq. rewrite len_app. unfold len. simpl. lia.
Qed.

(** One iteration on a history that ends with [u]. *)
Lemma undoLast_loop_step (fuel : nat) (rl : Instance) (h : list undoItem)
    (u : undoItem) :
  viUndoHistory rl = h ++ [u] ->
  undoLast_loop (S fuel) rl =
  let rl' := mkInstance (line rl) (pos rl) h (viUndoSkipAppend rl) in
  if negb (bool_decide (uline u = string_of_runes (line rl)))
  then Some (Some u, rl')
  else undoLast_loop fuel rl'.
Proof.
  intros Hh. cbn [undoLast_loop]. rewrite Hh.
  rewrite len_snoc_nonzero, TokeniseEdges.go_index_last_snoc, take_snoc. reflexivity.
Qed.

(** The loop drops the snapshots equal to the line from the end of the
    history, one iteration each. *)
Lemma undoLast_loop_skips (same : list undoItem) :
  forall (fuel : nat) (rl : Instance) (h : list undoItem),
    viUndoHistory rl = h ++ same ->
    Forall (fun v => uline v = string_of_runes (line rl)) same ->
    undoLast_loop (length same + fuel) rl =
    undoLast_loop fuel
      (mkInstance (line rl) (pos rl) h (viUndoSkipAppend rl)).
Proof.
  induction same as [|v same IH] using rev_ind; intros fuel rl h Hh Hsame.
  - rewrite app_nil_r in Hh. destruct rl as [l p hist skip].
    cbn in Hh. subst hist. reflexivity.
  - apply Forall_app in Hsame as (Hsame & Hv).
    apply Forall_cons in Hv as (Hv & _).
    replace (length (same ++ [v]) + fuel)%nat with (S (length same + fuel))
      by (rewrite length_app; simpl; lia).
    rewrite (undoLast_loop_step _ rl (h ++ same) v)
      by (rewrite Hh, app_assoc; reflexivity).
    cbv zeta. rewrite bool_decide_true by exact Hv. cbn [negb].
    rewrite (IH fuel _ h) by (try reflexivity; exact Hsame). reflexivity.
Qed.

(** The loop of [undoLast] ends on the newest snapshot that differs from
    the line: the snapshots above it, all equal to the line, are dropped
    with it, the older ones stay in the history, and nothing else of the
    instance changes.  One iteration for each snapshot dropped is enough. *)
Theorem undoLast_pops_to_the_newest_different_snapshot (rl : Instance)
    (older same : list undoItem) (u : undoItem) (fuel : nat) :
  viUndoHistory rl = older ++ u :: same ->
  Forall (fun v => uline v = string_of_runes (line rl)) same ->
  uline u <> string_of_runes (line rl) ->
  (length same < fuel)%nat ->
  undoLast_loop fuel rl =
  Some (Some u, mkInstance (line rl) (pos rl) older (viUndoSkipAppend rl)).
Proof.
  intros Hh Hsame Hu Hfuel.
  replace fuel with (length same + S (fuel - S (length same)))%nat by lia.
  rewrite (undoLast_loop_skips same _ rl (older ++ [u]))
    by (try exact Hsame; rewrite Hh, <- app_assoc; reflexivity).
  rewrite (undoLast_loop_step _ _ older u) by reflexivity.
  cbv zeta. rewrite bool_decide_false by exact Hu. reflexivity.
Qed.

Lemma undoLast_pops_to_the_newest_different_snapshot_witness :
  undoLast_loop 3
    (mkInstance [97; 98] 2
       [mkItem [] 0; mkItem [97] 1; mkItem [97; 98] 2; mkItem [97; 98] 1]
       false) =
  Some (Some (mkItem [97] 1), mkInstance [97; 98] 2 [mkItem [] 0] false).
Proof.
  apply (undoLast_pops_to_the_newest_different_snapshot
           (mkInstance [97; 98] 2
              [mkItem [] 0; mkItem [97] 1; mkItem [97; 98] 2;
               mkItem [97; 98] 1] false)
           [mkItem [] 0] [mkItem [97; 98] 2; mkItem [97; 98] 1]
           (mkItem [97] 1) 3).
  - reflexivity.
  - repeat constructor.
  - vm_compute. discriminate.
  - simpl. lia.
Defined.

(** When every snapshot equals the line, [undoLast] returns from inside
    the loop: the history is left empty and the line and the position are
    not restored from any snapshot. *)
Theorem undoLast_returns_on_a_history_of_equal_snapshots (rl : Instance)
    (fuel : nat) :
  Forall (fun v => uline v = string_of_runes (line rl)) (viUndoHistory rl) ->
  (length (viUndoHistory rl) < fuel)%nat ->
  undoLast_loop fuel rl =
  Some (None, mkInstance (line rl) (pos rl) [] (viUndoSkipAppend rl)).
Proof.
  intros Hsame Hfuel.
  replace fuel
    with (length (viUndoHistory rl)
          + S (fuel - S (length (viUndoHistory rl))))%nat by lia.
  rewrite (undoLast_loop_skips (viUndoHistory rl) _ rl [])
    by (try exact Hsame; reflexivity).
  reflexivity.
Qed.

Lemma undoLast_returns_on_a_history_of_equal_snapshots_witness :
  undoLast_loop 3
    (mkInstance [97] 1 [mkItem [97] 0; mkItem [97] 1] true) =
  Some (None, mkInstance [97] 1 [] true).
Proof.
  apply (undoLast_returns_on_a_history_of_equal_snapshots
           (mkInstance [97] 1 [mkItem [97] 0; mkItem [97] 1] true) 3).
  - repeat constructor.
  - simpl. lia.
Defined.

(** A snapshot is found again after an edit.  When the line is saved by
    [undoAppendHistory] (no skip requested) and then edited into a line
    with another text, the loop of [undoLast] stops at once on that
    snapshot: it holds the saved position and the text of the saved line,
    that is the saved line itself when it holds Unicode scalar values
    only, and the history is back to what it was before the save. *)
Theorem undo_finds_the_line_saved_before_an_edit (rl : Instance)
    (line' : list rune) (pos' : Z) (fuel : nat) :
  viUndoSkipAppend rl = false ->
  string_of_runes line' <> string_of_runes (line rl) ->
  forallb valid_rune (line rl) = true ->
  exists u,
    undoLast_loop (S fuel) (edited line' pos' (undoAppendHistory rl)) =
    Some (Some u, mkInstance line' pos' (viUndoHistory rl) false) /\
    runes_of_string (uline u) = line rl /\ upos u = pos rl.
Proof.
  intros Hskip Hne Hv.
  exists (mkItem (string_of_runes (line rl)) (pos rl)).
  split; [|split; [apply Utf8Facts.runes_of_string_of_runes; exact Hv
                  |reflexivity]].
  unfold undoAppendHistory, edited. rewrite Hskip.
  rewrite (undoLast_loop_step fuel _ (viUndoHistory rl)
             (mkItem (string_of_runes (line rl)) (pos rl))) by reflexivity.
  cbv zeta. cbn [line pos viUndoSkipAppend uline].
  rewrite bool_decide_false by congruence. reflexivity.
Qed.

Lemma undo_finds_the_line_saved_before_an_edit_witness :
  exists u,
    undoLast_loop 1
      (edited [97; 98] 2
         (undoAppendHistory (mkInstance [97] 1 [mkItem [] 0] false))) =
    Some (Some u, mkInstance [97; 98] 2 [mkItem [] 0] false) /\
    runes_of_string (uline u) = [97] /\ upos u = 1.
Proof.
  apply (undo_finds_the_line_saved_before_an_edit
           (mkInstance [97] 1 [mkItem [] 0] false) [97; 98] 2 0).
  - reflexivity.
  - vm_compute. discriminate.
  - reflexivity.
Defined.

(** A requested skip is used up by one call: with [viUndoSkipAppend] set,
    a first [undoAppendHistory] saves nothing and the next one saves the
    line, so that two calls in a row add exactly one snapshot. *)
Theorem undoAppendHistory_skips_once (rl : Instance) :
  viUndoSkipAppend rl = true ->
  viUndoHistory (undoAppendHistory rl) = viUndoHistory rl /\
  viUndoHistory (undoAppendHistory (undoAppendHistory rl)) =
    viUndoHistory rl ++ [mkItem (string_of_runes (line rl)) (pos rl)].
Proof.
  intros Hskip. unfold undoAppendHistory. rewrite Hskip.
  cbn [viUndoSkipAppend viUndoHistory line pos]. split; reflexivity.
Qed.

Lemma undoAppendHistory_skips_once_witness :
  let rl := mkInstance [97] 1 [] true in
  viUndoHistory (undoAppendHistory rl) = [] /\
  viUndoHistory (undoAppendHistory (undoAppendHistory rl)) = [mkItem [97] 1].
Proof.
  intros rl. apply (undoAppendHistory_skips_once rl). reflexivity.
Defined.

End UndoFacts.
